(** * A shallow embedding of JanggiGame.py (Janggi, Korean chess)

    Pieces are Python objects with a mutable location; here a piece is an
    index into a store of piece records, the board is a 10x9 list of lists
    whose cells hold a piece index ([None] for an empty cell), and
    each side's collection is the list of the indices it holds, in order.
    Python's sets of (row, column) tuples are lists of positions; only
    membership ([in]) is ever asked of them, except the iteration of
    [is_check_mate], which visits them in the order the generator lists
    them. Python exceptions are the constructor [Exc] of [result]. *)

From Stdlib Require Import ZArith List String Ascii Bool Lia Permutation.
Import ListNotations.
Open Scope Z_scope.

(** ** Positions, owners, piece classes *)

Definition pos := (Z * Z)%type.

Definition pos_eqb (p q : pos) : bool := (fst p =? fst q) && (snd p =? snd q).

Definition pos_in (p : pos) (l : list pos) : bool := existsb (pos_eqb p) l.

Inductive color := Red | Blue.

Definition color_eqb (a b : color) : bool :=
  match a, b with Red, Red | Blue, Blue => true | _, _ => false end.

(** One constructor per Python class. *)
Inductive cls :=
| BlueGeneral | RedGeneral | BlueGuard | RedGuard
| Horse | Elephant | Chariot | Cannon | RedSoldier | BlueSoldier.

(** [JanggiPiece.get_type]: the [piece_type] string given by [create_pieces]. *)
Definition get_type (c : cls) : string :=
  match c with
  | BlueGeneral | RedGeneral => "General"
  | BlueGuard | RedGuard => "Guard"
  | Horse => "Horse"
  | Elephant => "Elephant"
  | Chariot => "Chariot"
  | Cannon => "Cannon"
  | RedSoldier | BlueSoldier => "Soldier"
  end.

(** A piece object: owner, class and the mutable [_location]
    ([None] once captured). *)
Record piece := mkPiece { owner : color; pcls : cls; location : option pos }.

Definition no_piece : piece := mkPiece Red Horse None.

Definition board := list (list (option nat)).

(** ** Board access inside the move generators

    The generators index the board only at cells they have checked to be
    on the board, so a total lookup suffices there. *)

Definition on_board (p : pos) : bool :=
  (0 <=? fst p) && (fst p <? 10) && (0 <=? snd p) && (snd p <? 9).

Definition cell (b : board) (p : pos) : option nat :=
  if on_board p then nth (Z.to_nat (snd p)) (nth (Z.to_nat (fst p)) b []) None
  else None.

Definition occupied (b : board) (p : pos) : bool :=
  match cell b p with Some _ => true | None => false end.

Definition in_red_fortress (p : pos) : bool :=
  (0 <=? fst p) && (fst p <? 3) && (3 <=? snd p) && (snd p <? 6).

Definition in_blue_fortress (p : pos) : bool :=
  (7 <=? fst p) && (fst p <? 10) && (3 <=? snd p) && (snd p <? 6).

(** ** get_legal_moves of the General and Guard classes

    [BlueGeneral], [BlueGuard] (and [RedGeneral], [RedGuard]) have the same
    code, parametrised here by the fortress and its diagonal points. *)

Section Palace.
Variable in_fortress : pos -> bool.
Variable diag_points : list pos.
Variable b : board.
Variable opposition : list pos.

(** The call with [count = 1]. *)
Definition palace_step (cur : pos) : list pos :=
  if negb (in_fortress cur) then []
  else if occupied b cur && negb (pos_in cur opposition) then []
  else [cur].

(** The call with [count = 0] at [current_spot = self.get_location()]. *)
Definition palace_moves (cur : pos) : list pos :=
  let '(row, column) := cur in
  if negb (in_fortress cur) then []
  else
    (if pos_in cur diag_points then
       palace_step (row + 1, column + 1) ++ palace_step (row + 1, column - 1) ++
       palace_step (row - 1, column + 1) ++ palace_step (row - 1, column - 1)
     else []) ++
    palace_step (row + 1, column) ++ palace_step (row - 1, column) ++
    palace_step (row, column + 1) ++ palace_step (row, column - 1).
End Palace.

Definition blue_diag_points : list pos := [(7, 3); (7, 5); (9, 3); (9, 5); (8, 4)].
Definition red_diag_points : list pos := [(0, 3); (0, 5); (2, 3); (2, 5); (1, 4)].

(** ** Horse.get_legal_moves *)

Section Horse.
Variable b : board.
Variable opposition : list pos.
Variable loc : pos.

(** [count = 2]: the final cell. *)
Definition horse_final (cur : pos) : list pos :=
  if negb (on_board cur) then []
  else if occupied b cur && negb (pos_in cur opposition) then []
  else [cur].

(** [count = 1]: the orthogonal first step, then the two diagonals. *)
Definition horse_mid (cur : pos) : list pos :=
  let '(row, column) := cur in
  if negb (on_board cur) then []
  else if occupied b cur then []
  else if row >? fst loc then
    horse_final (row + 1, column + 1) ++ horse_final (row + 1, column - 1)
  else if row <? fst loc then
    horse_final (row - 1, column + 1) ++ horse_final (row - 1, column - 1)
  else if column >? snd loc then
    horse_final (row + 1, column + 1) ++ horse_final (row - 1, column + 1)
  else
    horse_final (row + 1, column - 1) ++ horse_final (row - 1, column - 1).

Definition horse_moves : list pos :=
  let '(row, column) := loc in
  if negb (on_board loc) then []
  else horse_mid (row + 1, column) ++ horse_mid (row - 1, column) ++
       horse_mid (row, column + 1) ++ horse_mid (row, column - 1).
End Horse.

(** ** Elephant.get_legal_moves

    The direction strings "++", "+-", "-+", "--" are the row and column
    increments they name. *)

Section Elephant.
Variable b : board.
Variable opposition : list pos.
Variable loc : pos.

(** [count = 3]. *)
Definition elephant_final (cur : pos) : list pos :=
  if negb (on_board cur) then []
  else if occupied b cur && negb (pos_in cur opposition) then []
  else [cur].

(** [count = 2], continuing in [direction]. *)
Definition elephant_second (cur : pos) (direction : Z * Z) : list pos :=
  let '(row, column) := cur in
  if negb (on_board cur) then []
  else if occupied b cur then []
  else elephant_final (row + fst direction, column + snd direction).

(** [count = 1]. *)
Definition elephant_first (cur : pos) : list pos :=
  let '(row, column) := cur in
  if negb (on_board cur) then []
  else if occupied b cur then []
  else if row >? fst loc then
    elephant_second (row + 1, column + 1) (1, 1) ++
    elephant_second (row + 1, column - 1) (1, -1)
  else if row <? fst loc then
    elephant_second (row - 1, column + 1) (-1, 1) ++
    elephant_second (row - 1, column - 1) (-1, -1)
  else if column >? snd loc then
    elephant_second (row + 1, column + 1) (1, 1) ++
    elephant_second (row - 1, column + 1) (-1, 1)
  else
    elephant_second (row + 1, column - 1) (1, -1) ++
    elephant_second (row - 1, column - 1) (-1, -1).

Definition elephant_moves : list pos :=
  let '(row, column) := loc in
  if negb (on_board loc) then []
  else elephant_first (row + 1, column) ++ elephant_first (row - 1, column) ++
       elephant_first (row, column + 1) ++ elephant_first (row, column - 1).
End Elephant.

(** ** Chariot.get_legal_moves

    [direction] is [None] on the first call and otherwise the increment
    named by "+=", "-=", "=+", "=-" (orthogonal) or "++", "+-", "-+", "--"
    (diagonal). The recursion walks a straight line, so it leaves the
    board within ten calls; [fuel] only makes the recursion structural. *)

Definition chariot_diag_points : list pos :=
  [(0, 3); (0, 5); (1, 4); (2, 3); (2, 5); (7, 3); (7, 5); (9, 3); (9, 5); (8, 4)].

Definition is_diagonal (direction : option (Z * Z)) : bool :=
  match direction with
  | Some (dr, dc) => negb (dr =? 0) && negb (dc =? 0)
  | None => false
  end.

Section Chariot.
Variable b : board.
Variable opposition : list pos.
Variable loc : pos.

Fixpoint chariot_go (fuel : nat) (cur : pos) (direction : option (Z * Z)) : list pos :=
  match fuel with
  | O => []
  | S fuel' =>
    let '(row, column) := cur in
    if negb (on_board cur) then []
    else if is_diagonal direction &&
            negb (in_red_fortress cur) && negb (in_blue_fortress cur) then []
    else if negb (pos_eqb loc cur) && occupied b cur
            && negb (pos_in cur opposition) then []
    else if negb (pos_eqb loc cur) && pos_in cur opposition then [cur]
    else
      match negb (pos_eqb loc cur) && negb (occupied b cur), direction with
      | true, Some (dr, dc) =>
        cur :: chariot_go fuel' (row + dr, column + dc) direction
      | _, _ =>
        (if pos_in cur chariot_diag_points then
           chariot_go fuel' (row + 1, column + 1) (Some (1, 1)) ++
           chariot_go fuel' (row + 1, column - 1) (Some (1, -1)) ++
           chariot_go fuel' (row - 1, column + 1) (Some (-1, 1)) ++
           chariot_go fuel' (row - 1, column - 1) (Some (-1, -1))
         else []) ++
        chariot_go fuel' (row + 1, column) (Some (1, 0)) ++
        chariot_go fuel' (row - 1, column) (Some (-1, 0)) ++
        chariot_go fuel' (row, column + 1) (Some (0, 1)) ++
        chariot_go fuel' (row, column - 1) (Some (0, -1))
      end
  end.

Definition chariot_moves : list pos := chariot_go 12 loc None.
End Chariot.

(** ** Cannon.get_legal_moves

    [positions] is the list of cells holding a piece whose type is not
    "Cannon"; [count] the number of such pieces jumped so far. A direction
    other than "+=", "-=", "=+" goes left ("=-"), as in the code's [else]. *)

Definition cannon_next (cur : pos) (direction : option (Z * Z)) : pos * Z * Z :=
  let '(row, column) := cur in
  match direction with
  | Some (1, 0) => (row + 1, column, 1, 0)
  | Some (-1, 0) => (row - 1, column, -1, 0)
  | Some (0, 1) => (row, column + 1, 0, 1)
  | _ => (row, column - 1, 0, -1)
  end.

Definition red_corners : list (pos * pos) :=
  [((0, 3), (2, 5)); ((0, 5), (2, 3)); ((2, 3), (0, 5)); ((2, 5), (0, 3))].
Definition blue_corners : list (pos * pos) :=
  [((7, 3), (9, 5)); ((7, 5), (9, 3)); ((9, 3), (7, 5)); ((9, 5), (7, 3))].

(** [dict.get]. *)
Fixpoint corner_get (d : list (pos * pos)) (p : pos) : option pos :=
  match d with
  | [] => None
  | (k, v) :: d' => if pos_eqb k p then Some v else corner_get d' p
  end.

Definition board_cells : list pos :=
  flat_map (fun r => map (fun c => (Z.of_nat r, Z.of_nat c)) (seq 0 9)) (seq 0 10).

Section Cannon.
Variable pcs : list piece.
Variable b : board.
Variable opposition : list pos.
Variable loc : pos.

(** The list comprehension computing [positions] on the first call. *)
Definition cannon_positions : list pos :=
  filter (fun p => match cell b p with
                   | Some i => negb (String.eqb (get_type (pcls (nth i pcs no_piece))) "Cannon")
                   | None => false
                   end) board_cells.

Definition cannon_diagonals (positions : list pos) : list pos :=
  (match corner_get red_corners loc with
   | Some v => if pos_in (0, 4) positions then [v] else []
   | None => []
   end) ++
  (match corner_get blue_corners loc with
   | Some v => if pos_in (8, 4) positions then [v] else []
   | None => []
   end).

Fixpoint cannon_go (fuel : nat) (positions : list pos) (count : nat) (cur : pos)
    (direction : option (Z * Z)) : list pos :=
  match fuel with
  | O => []
  | S fuel' =>
    let '(row, column) := cur in
    let '(nxt, dr, dc) := cannon_next cur direction in
    if negb (on_board cur) then []
    else if negb (pos_eqb cur loc) && occupied b cur
            && negb (pos_in cur positions) then []
    else if (1 <? count)%nat then []
    else if (count =? 1)%nat && pos_in cur opposition then [cur]
    else if (count =? 1)%nat && negb (occupied b cur) then
      cur :: cannon_go fuel' positions count nxt (Some (dr, dc))
    else if negb (occupied b cur) then
      cannon_go fuel' positions count nxt (Some (dr, dc))
    else if pos_in cur positions then
      cannon_go fuel' positions (S count) nxt (Some (dr, dc))
    else
      cannon_diagonals positions ++
      cannon_go fuel' positions count (row + 1, column) (Some (1, 0)) ++
      cannon_go fuel' positions count (row - 1, column) (Some (-1, 0)) ++
      cannon_go fuel' positions count (row, column + 1) (Some (0, 1)) ++
      cannon_go fuel' positions count (row, column - 1) (Some (0, -1))
  end.

Definition cannon_moves : list pos := cannon_go 12 cannon_positions 0 loc None.
End Cannon.

(** ** RedSoldier.get_legal_moves and BlueSoldier.get_legal_moves *)

Section Soldier.
Variable b : board.
Variable opposition : list pos.

(** The call with [count = 1]. *)
Definition soldier_step (cur : pos) : list pos :=
  if negb (on_board cur) then []
  else if occupied b cur && negb (pos_in cur opposition) then []
  else [cur].

Definition red_soldier_moves (loc : pos) : list pos :=
  let '(row, column) := loc in
  if negb (on_board loc) then []
  else
    (if pos_eqb loc (7, 3) then [(8, 4)]
     else if pos_eqb loc (7, 5) then [(8, 4)]
     else if pos_eqb loc (8, 4) then [(9, 3); (9, 5)]
     else []) ++
    soldier_step (row + 1, column) ++ soldier_step (row, column + 1) ++
    soldier_step (row, column - 1).

Definition blue_soldier_moves (loc : pos) : list pos :=
  let '(row, column) := loc in
  if negb (on_board loc) then []
  else
    (if pos_eqb loc (2, 3) then [(1, 4)]
     else if pos_eqb loc (2, 5) then [(1, 4)]
     else if pos_eqb loc (1, 4) then [(0, 3); (0, 5)]
     else []) ++
    soldier_step (row - 1, column) ++ soldier_step (row, column + 1) ++
    soldier_step (row, column - 1).
End Soldier.

(** ** Dispatch on the class: [piece.get_legal_moves(board, opposition)]
    for a piece whose location is [loc]. *)

Definition get_legal_moves (pcs : list piece) (b : board) (opposition : list pos)
    (c : cls) (loc : pos) : list pos :=
  match c with
  | BlueGeneral | BlueGuard => palace_moves in_blue_fortress blue_diag_points b opposition loc
  | RedGeneral | RedGuard => palace_moves in_red_fortress red_diag_points b opposition loc
  | Horse => horse_moves b opposition loc
  | Elephant => elephant_moves b opposition loc
  | Chariot => chariot_moves b opposition loc
  | Cannon => cannon_moves pcs b opposition loc
  | RedSoldier => red_soldier_moves b opposition loc
  | BlueSoldier => blue_soldier_moves b opposition loc
  end.

(** ** The game object *)

Inductive gstate := UNFINISHED | RED_WON | BLUE_WON.

Definition gstate_eqb (a b : gstate) : bool :=
  match a, b with
  | UNFINISHED, UNFINISHED | RED_WON, RED_WON | BLUE_WON, BLUE_WON => true
  | _, _ => false
  end.

Record state := mkState {
  board_of : board;
  pieces : list piece;        (* the piece objects, by index *)
  red_pieces : list nat;      (* self._red_pieces *)
  blue_pieces : list nat;     (* self._blue_pieces *)
  game_state : gstate;
  current_turn : color
}.

(** Python exceptions that the code can raise. *)
Inductive exn := KeyError | ValueError | IndexError | TypeError | AttributeError
               | RecursionError.

Inductive result (A : Type) :=
| Ret (a : A) (s : state)
| Exc (e : exn) (s : state).
Arguments Ret {A}. Arguments Exc {A}.

Definition M (A : Type) := state -> result A.

Definition ret {A} (a : A) : M A := fun s => Ret a s.
Definition bind {A B} (m : M A) (k : A -> M B) : M B :=
  fun s => match m s with Ret a s' => k a s' | Exc e s' => Exc e s' end.
Definition get : M state := fun s => Ret s s.
Definition put (s : state) : M unit := fun _ => Ret tt s.
Definition raise {A} (e : exn) : M A := fun s => Exc e s.
Definition lift {A} (r : exn + A) : M A :=
  match r with inl e => raise e | inr a => ret a end.

Notation "x <- m ;; k" := (bind m (fun x => k)) (at level 61, m at next level, right associativity).
Notation "m ;;; k" := (bind m (fun _ => k)) (at level 61, right associativity).

(** ** Lists as Python lists *)

Fixpoint list_set {A} (l : list A) (n : nat) (x : A) : list A :=
  match l, n with
  | [], _ => []
  | _ :: l', O => x :: l'
  | y :: l', S n' => y :: list_set l' n' x
  end.

(** Python indexing [l[n]]: negative indices count from the end. *)
Definition py_index (n : Z) (len : nat) : option nat :=
  if (0 <=? n) && (n <? Z.of_nat len) then Some (Z.to_nat n)
  else if (- Z.of_nat len <=? n) && (n <? 0) then Some (Z.to_nat (n + Z.of_nat len))
  else None.

(** [board[p[0]][p[1]]]. *)
Definition board_get (b : board) (p : pos) : exn + option nat :=
  match py_index (fst p) (List.length b) with
  | None => inl IndexError
  | Some r =>
    let row := nth r b [] in
    match py_index (snd p) (List.length row) with
    | None => inl IndexError
    | Some c => inr (nth c row None)
    end
  end.

(** [board[p[0]][p[1]] = v]. *)
Definition board_set (b : board) (p : pos) (v : option nat) : exn + board :=
  match py_index (fst p) (List.length b) with
  | None => inl IndexError
  | Some r =>
    let row := nth r b [] in
    match py_index (snd p) (List.length row) with
    | None => inl IndexError
    | Some c => inr (list_set b r (list_set row c v))
    end
  end.

(** [list.remove(x)]: the first occurrence, ValueError if absent. *)
Fixpoint list_remove (x : nat) (l : list nat) : option (list nat) :=
  match l with
  | [] => None
  | y :: l' => if Nat.eqb x y then Some l'
               else option_map (cons y) (list_remove x l')
  end.

(** ** Accessors of the game *)

Definition piece_of (st : state) (i : nat) : piece := nth i (pieces st) no_piece.

Definition side_pieces (st : state) (player : color) : list nat :=
  match player with Blue => blue_pieces st | Red => red_pieces st end.

Definition other (c : color) : color := match c with Blue => Red | Red => Blue end.

(** [get_opposition_positions]: the locations of the other side's pieces
    (a captured piece's [None] is never a member of it). *)
Definition get_opposition_positions (st : state) (player : color) : list pos :=
  flat_map (fun i => match location (piece_of st i) with Some p => [p] | None => [] end)
    (side_pieces st (other player)).

(** [piece.get_legal_moves(board, opposition)]; a piece whose location is
    [None] recurses on [current_spot = None] forever. *)
Definition piece_moves (st : state) (i : nat) (opposition : list pos) : exn + list pos :=
  match location (piece_of st i) with
  | None => inl RecursionError
  | Some loc => inr (get_legal_moves (pieces st) (board_of st) opposition
                                     (pcls (piece_of st i)) loc)
  end.

Definition set_location (st : state) (i : nat) (l : option pos) : state :=
  let pc := piece_of st i in
  mkState (board_of st) (list_set (pieces st) i (mkPiece (owner pc) (pcls pc) l))
          (red_pieces st) (blue_pieces st) (game_state st) (current_turn st).

Definition set_board (st : state) (b : board) : state :=
  mkState b (pieces st) (red_pieces st) (blue_pieces st) (game_state st) (current_turn st).

Definition set_red (st : state) (l : list nat) : state :=
  mkState (board_of st) (pieces st) l (blue_pieces st) (game_state st) (current_turn st).

Definition set_blue (st : state) (l : list nat) : state :=
  mkState (board_of st) (pieces st) (red_pieces st) l (game_state st) (current_turn st).

Definition get_board_m (p : pos) : M (option nat) :=
  fun st => match board_get (board_of st) p with
            | inl e => Exc e st
            | inr v => Ret v st
            end.

Definition set_board_m (p : pos) (v : option nat) : M unit :=
  fun st => match board_set (board_of st) p v with
            | inl e => Exc e st
            | inr b => Ret tt (set_board st b)
            end.

(** [piece.set_location(l)]; the empty string has no such method. *)
Definition set_location_m (i : option nat) (l : option pos) : M unit :=
  fun st => match i with
            | None => Exc AttributeError st
            | Some i => Ret tt (set_location st i l)
            end.

Definition remove_piece_m (i : nat) : M unit :=
  fun st =>
    if existsb (Nat.eqb i) (red_pieces st) then
      match list_remove i (red_pieces st) with
      | Some l => Ret tt (set_red st l)
      | None => Exc ValueError st
      end
    else
      match list_remove i (blue_pieces st) with
      | Some l => Ret tt (set_blue st l)
      | None => Exc ValueError st
      end.

(** ** JanggiGame.is_in_check *)

(** The union of the moves of the pieces [l]; the first failing piece
    raises. *)
Fixpoint union_moves (st : state) (opposition : list pos) (l : list nat) : exn + list pos :=
  match l with
  | [] => inr []
  | i :: l' =>
    match piece_moves st i opposition with
    | inl e => inl e
    | inr m =>
      match union_moves st opposition l' with
      | inl e => inl e
      | inr rest => inr (m ++ rest)
      end
    end
  end.

(** The loop [for piece in ...: if piece.get_type() == "General":
    position = piece.get_location()]: the last General wins. *)
Definition general_position (st : state) (l : list nat) : option pos :=
  fold_left (fun acc i =>
               if String.eqb (get_type (pcls (piece_of st i))) "General"
               then location (piece_of st i) else acc) l None.

Definition is_in_check_r (st : state) (player : color) : exn + bool :=
  let position := general_position st (side_pieces st player) in
  match union_moves st (get_opposition_positions st (other player))
                    (side_pieces st (other player)) with
  | inl e => inl e
  | inr all_positions =>
    inr (match position with
         | Some p => pos_in p all_positions
         | None => false
         end)
  end.

Definition is_in_check (player : color) : M bool :=
  fun st => match is_in_check_r st player with
            | inl e => Exc e st
            | inr b => Ret b st
            end.

(** ** JanggiGame.leaves_in_check *)

Definition leaves_in_check (move_from move_to : pos) : M bool :=
  piece <- get_board_m move_from ;;
  set_board_m move_from None ;;;
  target <- get_board_m move_to ;;
  opponent <- (match target with
               | Some o =>
                 set_board_m move_to None ;;;
                 set_location_m (Some o) None ;;;
                 remove_piece_m o ;;;
                 ret (Some o)
               | None => ret None
               end) ;;
  set_board_m move_to piece ;;;
  set_location_m piece (Some move_to) ;;;
  st <- get ;;
  chk <- (match piece with
          | Some i => is_in_check (owner (piece_of st i))
          | None => raise AttributeError
          end) ;;
  set_board_m move_from piece ;;;
  set_location_m piece (Some move_from) ;;;
  (match opponent with
   | Some o =>
     set_board_m move_to (Some o) ;;;
     set_location_m (Some o) (Some move_to) ;;;
     st' <- get ;;
     (match owner (piece_of st' o) with
      | Blue => put (set_blue st' (blue_pieces st' ++ [o]))
      | Red => put (set_red st' (red_pieces st' ++ [o]))
      end)
   | None => set_board_m move_to None
   end) ;;;
  ret chk.

(** ** JanggiGame.update_board *)

Definition update_board (move_from move_to : pos) : M unit :=
  piece <- get_board_m move_from ;;
  set_board_m move_from None ;;;
  target <- get_board_m move_to ;;
  (match target with
   | Some o =>
     set_board_m move_to None ;;;
     set_location_m (Some o) None ;;;
     remove_piece_m o
   | None => ret tt
   end) ;;;
  set_board_m move_to piece ;;;
  set_location_m piece (Some move_to).

(** ** JanggiGame.is_check_mate

    [for move_to in moves] visits the set in the generator's order; the
    result it returns does not depend on that order. *)
Fixpoint escapes (i : nat) (moves : list pos) : M bool :=
  match moves with
  | [] => ret false
  | move_to :: moves' =>
    st <- get ;;
    match location (piece_of st i) with
    | None => raise TypeError
    | Some from =>
      lic <- leaves_in_check from move_to ;;
      if negb lic then ret true else escapes i moves'
    end
  end.

(** [for piece in self.get_red_pieces()] over a list that
    [leaves_in_check] may change: Python's list iterator reads index [k]
    of the current list until [k] reaches its current length.
    [leaves_in_check] removes and appends one element at most, so the
    length at the start bounds the number of iterations. *)
Fixpoint check_mate_loop (fuel : nat) (player : color) (k : nat) : M bool :=
  match fuel with
  | O => ret true
  | S fuel' =>
    st <- get ;;
    match nth_error (side_pieces st player) k with
    | None => ret true
    | Some i =>
      moves <- lift (piece_moves st i (get_opposition_positions st player)) ;;
      esc <- escapes i moves ;;
      if esc then ret false else check_mate_loop fuel' player (S k)
    end
  end.

Definition is_check_mate (player : color) : M bool :=
  fun st => check_mate_loop (List.length (side_pieces st player)) player 0 st.

(** ** Turn and state *)

Definition change_turn : M unit :=
  fun st => Ret tt (mkState (board_of st) (pieces st) (red_pieces st) (blue_pieces st)
                            (game_state st) (other (current_turn st))).

(** The state that [change_turn] leaves. *)
Definition pass_turn (st : state) : state :=
  mkState (board_of st) (pieces st) (red_pieces st) (blue_pieces st)
          (game_state st) (other (current_turn st)).

(** The loop of [is_in_check] selecting the General of a side: [g] is the
    only member of [l] whose type is "General". *)
Definition only_general (st : state) (l : list nat) (g : nat) : Prop :=
  filter (fun i => String.eqb (get_type (pcls (piece_of st i))) "General") l = [g].

(** Every member of [l] has a location (captured pieces leave the lists). *)
Definition located (st : state) (l : list nat) : bool :=
  forallb (fun i => match location (piece_of st i) with Some _ => true | None => false end) l.

(** The invariant that [make_move] keeps from the initial game on: a
    10x9 grid; the piece on each cell exists, records that cell as its
    location and belongs to its owner's collection; each collection holds
    pieces of its own side, without repetition, all located. *)
Definition board_shape (b : board) : bool :=
  (List.length b =? 10)%nat && forallb (fun row => (List.length row =? 9)%nat) b.

Definition in_side (st : state) (c : color) (i : nat) : bool :=
  existsb (Nat.eqb i) (side_pieces st c).

Definition opt_pos_eqb (a b : option pos) : bool :=
  match a, b with
  | Some p, Some q => pos_eqb p q
  | None, None => true
  | _, _ => false
  end.

Definition cells_consistent (st : state) : bool :=
  forallb (fun p => match cell (board_of st) p with
                    | None => true
                    | Some i => (i <? List.length (pieces st))%nat
                                && opt_pos_eqb (location (piece_of st i)) (Some p)
                                && in_side st (owner (piece_of st i)) i
                    end) board_cells.

Definition owners_consistent (st : state) : bool :=
  forallb (fun i => color_eqb (owner (piece_of st i)) Red) (red_pieces st) &&
  forallb (fun i => color_eqb (owner (piece_of st i)) Blue) (blue_pieces st).

Fixpoint nodupb (l : list nat) : bool :=
  match l with
  | [] => true
  | x :: l' => negb (existsb (Nat.eqb x) l') && nodupb l'
  end.

Definition consistent (st : state) : bool :=
  board_shape (board_of st) && cells_consistent st && owners_consistent st &&
  nodupb (red_pieces st) && nodupb (blue_pieces st) &&
  located st (red_pieces st) && located st (blue_pieces st).

(** Two states that differ at most in the order of the collections. *)
Definition same_up_to_order (st st' : state) : Prop :=
  board_of st' = board_of st /\ pieces st' = pieces st /\
  game_state st' = game_state st /\ current_turn st' = current_turn st /\
  Permutation (red_pieces st') (red_pieces st) /\
  Permutation (blue_pieces st') (blue_pieces st).

Definition set_game_state (player : color) : M unit :=
  fun st => Ret tt (mkState (board_of st) (pieces st) (red_pieces st) (blue_pieces st)
                            (match player with Blue => BLUE_WON | Red => RED_WON end)
                            (current_turn st)).

Definition get_opposition : M color := fun st => Ret (other (current_turn st)) st.

(** ** Coordinate translation in make_move

    [int(s)] on a string: surrounding whitespace, an optional sign, then
    decimal digits with single underscores between digits. Characters are
    the code points 0 to 255. *)

Definition is_py_space (a : ascii) : bool :=
  let n := nat_of_ascii a in
  ((9 <=? n)%nat && (n <=? 13)%nat) || ((28 <=? n)%nat && (n <=? 32)%nat)
  || (n =? 133)%nat || (n =? 160)%nat.

Definition digit_value (a : ascii) : option Z :=
  let n := nat_of_ascii a in
  if (48 <=? n)%nat && (n <=? 57)%nat then Some (Z.of_nat n - 48) else None.

Fixpoint drop_spaces (l : list ascii) : list ascii :=
  match l with
  | a :: l' => if is_py_space a then drop_spaces l' else l
  | [] => []
  end.

Fixpoint parse_digits (l : list ascii) (acc : Z) : option Z :=
  match l with
  | [] => Some acc
  | a :: l' =>
    match digit_value a with
    | Some d => parse_digits l' (acc * 10 + d)
    | None =>
      if Ascii.eqb a "_"%char then
        match l' with
        | a' :: _ => match digit_value a' with
                     | Some _ => parse_digits l' acc
                     | None => None
                     end
        | [] => None
        end
      else None
    end
  end.

Definition parse_unsigned (l : list ascii) : option Z :=
  match l with
  | a :: _ => match digit_value a with
              | Some _ => parse_digits l 0
              | None => None
              end
  | [] => None
  end.

Definition py_int (s : string) : option Z :=
  let l := rev (drop_spaces (rev (drop_spaces (list_ascii_of_string s)))) in
  match l with
  | "-"%char :: l' => option_map Z.opp (parse_unsigned l')
  | "+"%char :: l' => parse_unsigned l'
  | _ => parse_unsigned l
  end.

(** The dictionary [translate]. *)
Definition translate (a : ascii) : option Z :=
  match a with
  | "a"%char => Some 0 | "b"%char => Some 1 | "c"%char => Some 2
  | "d"%char => Some 3 | "e"%char => Some 4 | "f"%char => Some 5
  | "g"%char => Some 6 | "h"%char => Some 7 | "i"%char => Some 8
  | _ => None
  end.

(** [(int(m[1:]) - 1, translate[m[0]])], evaluated left to right. *)
Definition to_row_column (m : string) : exn + pos :=
  let tail := match m with EmptyString => EmptyString | String _ t => t end in
  match py_int tail with
  | None => inl ValueError
  | Some n =>
    match m with
    | EmptyString => inl IndexError
    | String a _ =>
      match translate a with
      | None => inl KeyError
      | Some c => inr (n - 1, c)
      end
    end
  end.

(** ** JanggiGame.make_move *)

(** From the legal-move test on. *)
Definition make_move_tail (i : nat) (player : color) (from_position to_position : pos)
    : M bool :=
  st <- get ;;
  moves <- lift (piece_moves st i (get_opposition_positions st player)) ;;
  if negb (pos_in to_position moves) then ret false
  else
    lic <- leaves_in_check from_position to_position ;;
    if lic then ret false
    else
      update_board from_position to_position ;;;
      opp <- get_opposition ;;
      chk <- is_in_check opp ;;
      if chk then
        opp' <- get_opposition ;;
        mate <- is_check_mate opp' ;;
        if mate then set_game_state player ;;; ret true
        else change_turn ;;; ret true
      else change_turn ;;; ret true.

Definition make_move (move_from move_to : string) : M bool :=
  to_position <- lift (to_row_column move_to) ;;
  from_position <- lift (to_row_column move_from) ;;
  st <- get ;;
  if negb (gstate_eqb (game_state st) UNFINISHED) then ret false
  else
    c <- get_board_m from_position ;;
    match c with
    | None => ret false
    | Some i =>
      let player := owner (piece_of st i) in
      if negb (color_eqb player (current_turn st)) then ret false
      else if String.eqb move_from move_to then
        chk <- is_in_check player ;;
        if negb chk then change_turn ;;; ret true
        else make_move_tail i player from_position to_position
      else make_move_tail i player from_position to_position
    end.

(** ** The initial game: create_pieces, add_pieces, create_board *)

Definition empty_board : board := repeat (repeat None 9) 10.

(** [board[p[0]][p[1]] = v] at a cell of the board. *)
Definition put_cell (b : board) (p : pos) (v : option nat) : board :=
  let r := Z.to_nat (fst p) in
  list_set b r (list_set (nth r b []) (Z.to_nat (snd p)) v).

Definition blue_initial_general : pos := (8, 4).
Definition blue_initial : list (list pos) :=
  [[(9, 3); (9, 5)]; [(9, 2); (9, 7)]; [(9, 1); (9, 6)]; [(9, 0); (9, 8)];
   [(7, 1); (7, 7)]; [(6, 0); (6, 2); (6, 4); (6, 6); (6, 8)]].
Definition red_initial_general : pos := (1, 4).
Definition red_initial : list (list pos) :=
  [[(0, 3); (0, 5)]; [(0, 2); (0, 7)]; [(0, 1); (0, 6)]; [(0, 0); (0, 8)];
   [(2, 1); (2, 7)]; [(3, 0); (3, 2); (3, 4); (3, 6); (3, 8)]].

Definition init_at (l : list (list pos)) (k number : nat) : pos :=
  nth number (nth k l []) (0, 0).

(** The piece objects in the order [create_pieces] creates them. *)
Definition create_pieces : list piece :=
  [mkPiece Blue BlueGeneral (Some blue_initial_general);
   mkPiece Red RedGeneral (Some red_initial_general)] ++
  flat_map (fun number =>
    [mkPiece Blue BlueGuard (Some (init_at blue_initial 0 number));
     mkPiece Blue Horse (Some (init_at blue_initial 1 number));
     mkPiece Blue Elephant (Some (init_at blue_initial 2 number));
     mkPiece Blue Chariot (Some (init_at blue_initial 3 number));
     mkPiece Blue Cannon (Some (init_at blue_initial 4 number));
     mkPiece Red RedGuard (Some (init_at red_initial 0 number));
     mkPiece Red Horse (Some (init_at red_initial 1 number));
     mkPiece Red Elephant (Some (init_at red_initial 2 number));
     mkPiece Red Chariot (Some (init_at red_initial 3 number));
     mkPiece Red Cannon (Some (init_at red_initial 4 number))]) (seq 0 2) ++
  flat_map (fun number =>
    [mkPiece Blue BlueSoldier (Some (init_at blue_initial 5 number));
     mkPiece Red RedSoldier (Some (init_at red_initial 5 number))]) (seq 0 5).

(** A game holding the piece objects [pcs], each side's collection in
    creation order, placed by [add_pieces] (blue pieces first). *)
Definition side_of (pcs : list piece) (c : color) : list nat :=
  filter (fun i => color_eqb (owner (nth i pcs no_piece)) c) (seq 0 (List.length pcs)).

Definition add_pieces (pcs : list piece) (order : list nat) (b : board) : board :=
  fold_left (fun b i => match location (nth i pcs no_piece) with
                        | Some p => put_cell b p (Some i)
                        | None => b
                        end) order b.

Definition game_of (pcs : list piece) (turn : color) : state :=
  mkState (add_pieces pcs (side_of pcs Red) (add_pieces pcs (side_of pcs Blue) empty_board))
          pcs (side_of pcs Red) (side_of pcs Blue) UNFINISHED turn.

(** [JanggiGame()]: blue moves first. *)
Definition new_game : state := game_of create_pieces Blue.

(** Running a sequence of [make_move] calls, collecting the returned values. *)
Fixpoint play (ms : list (string * string)) : M (list bool) :=
  match ms with
  | [] => ret []
  | (f, t) :: ms' => r <- make_move f t ;; rs <- play ms' ;; ret (r :: rs)
  end.

(** ** Observations *)

Definition run_value {A} (r : result A) : option A :=
  match r with Ret a _ => Some a | Exc _ _ => None end.

Definition final_state {A} (r : result A) : state :=
  match r with Ret _ s | Exc _ s => s end.

(** [piece.get_legal_moves(board, self.get_opposition_positions(owner))]. *)
Definition moves_of (st : state) (i : nat) : list pos :=
  match piece_moves st i (get_opposition_positions st (owner (piece_of st i))) with
  | inr l => l
  | inl _ => []
  end.

(** The piece at a cell of the board, if any. *)
Definition piece_at (st : state) (p : pos) : option piece :=
  option_map (piece_of st) (cell (board_of st) p).

(** ** Concrete positions *)

(** [main()]'s first test sequence. *)
Definition main_moves_before_pass : list (string * string) :=
  [("c1", "e3"); ("a7", "b7"); ("a4", "a5"); ("b7", "b6"); ("b3", "b6");
   ("a1", "a4"); ("c7", "d7")]%string.

Definition before_pass : state := final_state (play main_moves_before_pass new_game).

(** Blue to move: the chariot at i6 goes to i2 and checks the red General
    at d2 along row 2. The red collection lists the General, a Horse, a
    Cannon, a Guard and an Elephant, in that order. *)
Definition mate_pieces : list piece :=
  [mkPiece Red RedGeneral (Some (1, 3)); mkPiece Red Horse (Some (9, 5));
   mkPiece Red Cannon (Some (7, 3)); mkPiece Red RedGuard (Some (0, 5));
   mkPiece Red Elephant (Some (0, 3)); mkPiece Blue BlueGeneral (Some (8, 4));
   mkPiece Blue Chariot (Some (5, 8)); mkPiece Blue Horse (Some (4, 4))].

Definition before_mate : state := game_of mate_pieces Blue.

(** The same position once [update_board] has moved the chariot. *)
Definition after_commit : state := final_state (update_board (5, 8) (1, 8) before_mate).

Definition after_mate : state := final_state (make_move "i6" "i2" before_mate).

(** A blue chariot pinned on the blue General by a red chariot. *)
Definition pin_pieces : list piece :=
  [mkPiece Blue BlueGeneral (Some (8, 4)); mkPiece Blue Chariot (Some (7, 4));
   mkPiece Red RedGeneral (Some (0, 3)); mkPiece Red RedSoldier (Some (7, 0));
   mkPiece Red Chariot (Some (2, 4))].

Definition pinned : state := game_of pin_pieces Blue.

(** A red Cannon on the corner (0, 3) of the red fortress. *)
Definition cannon_center_pieces : list piece :=
  [mkPiece Red Cannon (Some (0, 3)); mkPiece Red RedGeneral (Some (1, 4));
   mkPiece Blue BlueGeneral (Some (8, 4))].

Definition cannon_edge_pieces : list piece :=
  [mkPiece Red Cannon (Some (0, 3)); mkPiece Red RedGeneral (Some (2, 4));
   mkPiece Red RedGuard (Some (0, 4)); mkPiece Blue BlueGeneral (Some (8, 4))].

(** A red Soldier on the corner (7, 3) of the blue fortress, a red Chariot
    on its center. *)
Definition soldier_corner_pieces : list piece :=
  [mkPiece Red RedSoldier (Some (7, 3)); mkPiece Red Chariot (Some (8, 4));
   mkPiece Red RedGeneral (Some (1, 4)); mkPiece Blue BlueGeneral (Some (9, 4))].

(** ** Shapes used in the statements *)

(** The four orthogonal unit steps. *)
Definition orth (dr dc : Z) : Prop :=
  (dr = 1 /\ dc = 0) \/ (dr = -1 /\ dc = 0) \/ (dr = 0 /\ dc = 1) \/ (dr = 0 /\ dc = -1).

(** The forward or sideways shape of a red Soldier's destination. *)
Definition red_soldier_shape (loc d : pos) : Prop :=
  (fst d = fst loc + 1 /\ snd loc - 1 <= snd d <= snd loc + 1) \/
  (fst d = fst loc /\ (snd d = snd loc + 1 \/ snd d = snd loc - 1)).

Definition blue_soldier_shape (loc d : pos) : Prop :=
  (fst d = fst loc - 1 /\ snd loc - 1 <= snd d <= snd loc + 1) \/
  (fst d = fst loc /\ (snd d = snd loc + 1 \/ snd d = snd loc - 1)).

(** The diagonal steps along the lines of the blue fortress that a red
    Soldier may take: from a lower corner to the centre, and from the
    centre to an upper corner (rows grow towards the blue side). *)
Definition blue_fortress_diagonal_step (loc d : pos) : Prop :=
  (loc = (7, 3) /\ d = (8, 4)) \/ (loc = (7, 5) /\ d = (8, 4)) \/
  (loc = (8, 4) /\ (d = (9, 3) \/ d = (9, 5))).

(** The same for a blue Soldier in the red fortress. *)
Definition red_fortress_diagonal_step (loc d : pos) : Prop :=
  (loc = (2, 3) /\ d = (1, 4)) \/ (loc = (2, 5) /\ d = (1, 4)) \/
  (loc = (1, 4) /\ (d = (0, 3) \/ d = (0, 5))).

(** The destinations of a red Soldier: one row forward (row-increasing),
    straight or along a blue fortress diagonal, or one column aside. *)
Definition red_soldier_dest (loc d : pos) : Prop :=
  d = (fst loc + 1, snd loc) \/ blue_fortress_diagonal_step loc d \/
  d = (fst loc, snd loc + 1) \/ d = (fst loc, snd loc - 1).

(** The destinations of a blue Soldier: one row forward (row-decreasing),
    straight or along a red fortress diagonal, or one column aside. *)
Definition blue_soldier_dest (loc d : pos) : Prop :=
  d = (fst loc - 1, snd loc) \/ red_fortress_diagonal_step loc d \/
  d = (fst loc, snd loc + 1) \/ d = (fst loc, snd loc - 1).

(** [consistent] as propositions. *)
Record consistent_facts (st : state) : Prop := {
  cf_shape : board_shape (board_of st) = true;
  cf_cell : forall p i, on_board p = true -> cell (board_of st) p = Some i ->
              (i < List.length (pieces st))%nat /\ location (piece_of st i) = Some p /\
              In i (side_pieces st (owner (piece_of st i)));
  cf_red : forall i, In i (red_pieces st) -> owner (piece_of st i) = Red;
  cf_blue : forall i, In i (blue_pieces st) -> owner (piece_of st i) = Blue;
  cf_nodup_red : NoDup (red_pieces st);
  cf_nodup_blue : NoDup (blue_pieces st);
  cf_loc_red : located st (red_pieces st) = true;
  cf_loc_blue : located st (blue_pieces st) = true
}.

(** ** Pieces standing on their cells

    The facts of [consistent] together with: every piece of a collection
    stands on the board cell its location records, and no collection holds
    two Generals. [make_move] keeps them from the initial game on. *)

Definition placed (st : state) : bool :=
  forallb (fun i => match location (piece_of st i) with
                    | Some p => on_board p &&
                                match cell (board_of st) p with
                                | Some j => Nat.eqb i j
                                | None => false
                                end
                    | None => false
                    end) (red_pieces st ++ blue_pieces st).

(** The test [piece.get_type() == "General"] of [is_in_check]. *)
Definition is_general (st : state) (i : nat) : bool :=
  String.eqb (get_type (pcls (piece_of st i))) "General".

Definition generals_ok (st : state) : bool :=
  (List.length (filter (is_general st) (red_pieces st)) <=? 1)%nat &&
  (List.length (filter (is_general st) (blue_pieces st)) <=? 1)%nat.

Definition well_formed (st : state) : bool :=
  consistent st && placed st && generals_ok st.

(** A move notation that, when it translates, names a board cell. *)
Definition origin_on_board (m : string) : bool :=
  match to_row_column m with inr p => on_board p | inl _ => true end.

(** ** JanggiPiece.get_name and JanggiGame.print_board *)

(** The owner strings "red" and "blue" given to [__init__]. *)
Definition owner_string (c : color) : string :=
  match c with Red => "red" | Blue => "blue" end%string.

(** [self._name = owner + piece_type]. *)
Definition get_name (p : piece) : string := (owner_string (owner p) ++ get_type (pcls p))%string.

(** [s * n]. *)
Fixpoint str_repeat (s : string) (n : nat) : string :=
  match n with O => EmptyString | S n' => (s ++ str_repeat s n')%string end.

(** [str(n)] of a natural number: its decimal digits. *)
Fixpoint str_digits (fuel n : nat) (acc : string) : string :=
  match fuel with
  | O => acc
  | S fuel' =>
    let acc' := String (ascii_of_nat (48 + n mod 10)) acc in
    if (n <? 10)%nat then acc' else str_digits fuel' (n / 10) acc'
  end.

Definition str_nat (n : nat) : string := str_digits (S n) n EmptyString.

Definition a_i : string := "abcdefghi"%string.

(** The loop building [top]. *)
Definition print_top : string :=
  fold_left (fun top letter =>
               ((if Ascii.eqb letter "a"%char then top ++ "   " else top) ++
                " ______" ++ String letter EmptyString ++ "______ ")%string)
            (list_ascii_of_string a_i) EmptyString.

(** The text added to [line] for one cell. *)
Definition print_cell (st : state) (v : option nat) : string :=
  match v with
  | Some i =>
    let name := get_name (piece_of st i) in
    let difference := 13 - Z.of_nat (String.length name) in
    ("|" ++ name ++ str_repeat " " (Z.to_nat difference) ++ "|")%string
  | None => "|_____________|"%string
  end.

(** The line of row [row]; indexing the board may raise. *)
Definition print_row (st : state) (row : nat) : exn + string :=
  let head := if (row =? 9)%nat then (str_nat (row + 1) ++ " ")%string
              else (str_nat (row + 1) ++ "  ")%string in
  fold_left (fun acc column =>
               match acc with
               | inl e => inl e
               | inr line =>
                 match board_get (board_of st) (Z.of_nat row, Z.of_nat column) with
                 | inl e => inl e
                 | inr v => inr (line ++ print_cell st v)%string
                 end
               end) (seq 0 9) (inr head).

(** The lines printed for [rows], then the empty line of [print()]; an
    exception stops the printing. *)
Fixpoint print_rows (st : state) (rows : list nat) : list string * option exn :=
  match rows with
  | [] => ([EmptyString], None)
  | row :: rows' =>
    match print_row st row with
    | inl e => ([], Some e)
    | inr line => let '(ls, e) := print_rows st rows' in (line :: ls, e)
    end
  end.

(** The lines [print_board] prints, and the exception it raises, if any. *)
Definition print_board (st : state) : list string * option exn :=
  let '(ls, e) := print_rows st (seq 0 10) in (print_top :: ls, e).

(** The label of the cell [(row, column)] in the printout: the letter
    [a_i[column]] printed above its column and the number [str(row + 1)]
    printed left of its row. *)
Definition cell_label (p : pos) : string :=
  String (nth (Z.to_nat (snd p)) (list_ascii_of_string a_i) "a"%char)
         (str_nat (Z.to_nat (fst p) + 1)).

(** ** Vocabulary of the move-shape and outcome statements *)

(** The final state [set_game_state(player)] records when [player] wins. *)
Definition won_by (c : color) : gstate := match c with Red => RED_WON | Blue => BLUE_WON end.

(** A diagonal unit step. *)
Definition diag (x y : Z) : Prop := (x = 1 \/ x = -1) /\ (y = 1 \/ y = -1).

(** The test every generator applies to a target cell: empty, or holding
    a piece of the opposition. *)
Definition free_or_opposing (b : board) (opp : list pos) (d : pos) : Prop :=
  occupied b d = false \/ pos_in d opp = true.

(** A cell of either fortress. *)
Definition in_fortress (p : pos) : bool := in_red_fortress p || in_blue_fortress p.

(** * Properties *)

(** ** Concrete runs *)

(** Claim C9: from the initial layout, [make_move("c1", "e3")] on blue's
    turn returns False; in [main()]'s sequence [a7 b7] and then [a4 a5]
    return True, [b3 b6] returns False, and [a4 a4], issued on red's turn
    while red is not in check, returns True, gives the turn to blue and
    leaves the board as it was. *)
Theorem main_scenario :
  make_move "c1" "e3" new_game = Ret false new_game /\
  run_value (play main_moves_before_pass new_game)
    = Some [false; true; true; true; false; true; true] /\
  current_turn before_pass = Red /\
  is_in_check Red before_pass = Ret false before_pass /\
  run_value (make_move "a4" "a4" before_pass) = Some true /\
  current_turn (final_state (make_move "a4" "a4" before_pass)) = Blue /\
  board_of (final_state (make_move "a4" "a4" before_pass)) = board_of before_pass.
Proof. repeat split; vm_compute; reflexivity. Qed.

(** Claim C10: the notation is translated before any check and unguarded:
    an origin [j1] raises KeyError and an origin [axx] raises ValueError,
    instead of returning False. *)
Theorem make_move_bad_notation_raises :
  make_move "j1" "a1" new_game = Exc KeyError new_game /\
  make_move "axx" "a1" new_game = Exc ValueError new_game.
Proof. split; vm_compute; reflexivity. Qed.

(** Claim C2 (failing input): after blue's chariot i6-i2 checks red, red's
    Guard at f1 escapes by moving to f2, yet [make_move] reports BLUE_WON.
    The red Cannon's simulated capture of its own Horse moves the Horse to
    the end of the red collection while [is_check_mate] iterates it, and
    the iteration skips the Guard. *)
Theorem check_mate_skips_guard :
  run_value (make_move "i6" "i2" before_mate) = Some true /\
  game_state after_mate = BLUE_WON /\
  current_turn after_mate = Blue /\
  is_in_check Red after_commit = Ret true after_commit /\
  run_value (leaves_in_check (0, 5) (1, 5) after_commit) = Some false /\
  red_pieces after_commit = [0; 1; 2; 3; 4]%nat /\
  red_pieces after_mate = [0; 2; 3; 4; 1]%nat.
Proof. repeat split; vm_compute; reflexivity. Qed.

(** Claim C4 (failing input): a Cannon on the red corner (0, 3) with the
    red fortress center (1, 4) held by a General has no move to (2, 5);
    with (1, 4) empty and (0, 4) occupied, it has that move. *)
Theorem cannon_red_corner_reads_0_4 :
  option_map pcls (piece_at (game_of cannon_center_pieces Red) (1, 4)) = Some RedGeneral /\
  piece_at (game_of cannon_center_pieces Red) (2, 5) = None /\
  pos_in (2, 5) (moves_of (game_of cannon_center_pieces Red) 0) = false /\
  piece_at (game_of cannon_edge_pieces Red) (1, 4) = None /\
  pos_in (2, 5) (moves_of (game_of cannon_edge_pieces Red) 0) = true.
Proof. repeat split; vm_compute; reflexivity. Qed.

(** Claim C5 (failing input): a red Soldier on (7, 3) lists (8, 4), held by
    a red Chariot; the red Cannon of [before_mate] on (7, 3) lists (9, 5),
    held by a red Horse. *)
Theorem friendly_cells_in_moves :
  pos_in (8, 4) (moves_of (game_of soldier_corner_pieces Red) 0) = true /\
  option_map owner (piece_at (game_of soldier_corner_pieces Red) (8, 4)) = Some Red /\
  owner (piece_of (game_of soldier_corner_pieces Red) 0) = Red /\
  pos_in (9, 5) (moves_of before_mate 2) = true /\
  option_map owner (piece_at before_mate (9, 5)) = Some Red /\
  owner (piece_of before_mate 2) = Red.
Proof. repeat split; vm_compute; reflexivity. Qed.

(** Claim C3 (counterexample): the red Soldier starting on (3, 0) steps
    forward to (4, 0), a larger row, and not to (2, 0); the blue Soldier on
    (6, 0) steps to (5, 0) and not to (7, 0). *)
Theorem soldier_forward_direction_cex :
  piece_of new_game 23 = mkPiece Red RedSoldier (Some (3, 0)) /\
  pos_in (4, 0) (moves_of new_game 23) = true /\
  pos_in (2, 0) (moves_of new_game 23) = false /\
  piece_of new_game 22 = mkPiece Blue BlueSoldier (Some (6, 0)) /\
  pos_in (5, 0) (moves_of new_game 22) = true /\
  pos_in (7, 0) (moves_of new_game 22) = false.
Proof. repeat split; vm_compute; reflexivity. Qed.

(** Claim C1 (counterexample): in [pinned], the rejected capture e8-a8
    leaves the captured red Soldier at the end of the red collection, and
    the rejected e-2 to d8 (row -3 indexes row 7 of the board) leaves the
    blue Chariot's recorded location at (-3, 4). *)
Theorem rejected_move_changes_state :
  run_value (make_move "e8" "a8" pinned) = Some false /\
  red_pieces pinned = [2; 3; 4]%nat /\
  red_pieces (final_state (make_move "e8" "a8" pinned)) = [2; 4; 3]%nat /\
  run_value (make_move "e-2" "d8" pinned) = Some false /\
  location (piece_of pinned 1) = Some (7, 4) /\
  location (piece_of (final_state (make_move "e-2" "d8" pinned)) 1) = Some (-3, 4).
Proof. repeat split; vm_compute; reflexivity. Qed.

(** Claim C8 (counterexample): once BLUE_WON, [make_move("j1", "a1")]
    raises KeyError instead of returning False. *)
Theorem won_game_bad_notation_raises :
  game_state after_mate = BLUE_WON /\
  make_move "j1" "a1" after_mate = Exc KeyError after_mate.
Proof. split; vm_compute; reflexivity. Qed.

(** ** General lemmas *)

Lemma pos_eqb_spec (p q : pos) : pos_eqb p q = true <-> p = q.
Proof.
  destruct p as [a b], q as [c d]; unfold pos_eqb; simpl.
  rewrite andb_true_iff, !Z.eqb_eq; split.
  - intros [-> ->]; reflexivity.
  - intros H; injection H; auto.
Qed.

Lemma pos_in_spec (p : pos) (l : list pos) : pos_in p l = true <-> In p l.
Proof.
  unfold pos_in; rewrite existsb_exists; split.
  - intros [x [Hx He]]; apply pos_eqb_spec in He; subst; assumption.
  - intros H; exists p; split; [assumption | apply pos_eqb_spec; reflexivity].
Qed.

(** [play] threads the state of every call into the next one. *)
Lemma play_cons (f t : string) (ms : list (string * string)) (st : state) :
  play ((f, t) :: ms) st =
  match make_move f t st with
  | Ret r st' => match play ms st' with
                 | Ret rs st'' => Ret (r :: rs) st''
                 | Exc e st'' => Exc e st''
                 end
  | Exc e st' => Exc e st'
  end.
Proof.
  simpl; unfold bind, ret; destruct (make_move f t st); [|reflexivity].
  destruct (play ms s); reflexivity.
Qed.

(** Once the game is over, [make_move] returns before touching the state. *)
Lemma make_move_finished (st : state) (m1 m2 : string) :
  game_state st <> UNFINISHED ->
  (exists e, make_move m1 m2 st = Exc e st) \/ make_move m1 m2 st = Ret false st.
Proof.
  intros H; unfold make_move, bind, lift, get, ret, raise.
  destruct (to_row_column m2) as [e|q]; [left; exists e; reflexivity|].
  destruct (to_row_column m1) as [e|p]; [left; exists e; reflexivity|].
  right; destruct (game_state st); [congruence | reflexivity | reflexivity].
Qed.

(** Claim C8 (amended): once the game state is RED_WON or BLUE_WON, every
    [make_move] call leaves the game as it is, so the state never changes
    again; it returns False whenever both squares are in valid notation,
    and raises (before any check) on malformed notation: the error of
    translating [move_to] when that fails, else the error of translating
    [move_from]. *)
Theorem won_game_frozen (st : state) (Hover : game_state st <> UNFINISHED) :
  (forall m1 m2 p q, to_row_column m1 = inr p -> to_row_column m2 = inr q ->
     make_move m1 m2 st = Ret false st) /\
  (forall m1 m2 e, to_row_column m2 = inl e -> make_move m1 m2 st = Exc e st) /\
  (forall m1 m2 q e, to_row_column m2 = inr q -> to_row_column m1 = inl e ->
     make_move m1 m2 st = Exc e st) /\
  (forall m1 m2, (exists e, make_move m1 m2 st = Exc e st) \/
                 make_move m1 m2 st = Ret false st) /\
  (forall ms, final_state (play ms st) = st).
Proof.
  split; [|split; [|split; [|split]]].
  - intros m1 m2 p q H1 H2; unfold make_move, bind, lift, get, ret.
    rewrite H2, H1; destruct (game_state st); [congruence | reflexivity | reflexivity].
  - intros m1 m2 e H2; unfold make_move, bind, lift, raise; rewrite H2; reflexivity.
  - intros m1 m2 q e H2 H1; unfold make_move, bind, lift, raise, ret; rewrite H2, H1; reflexivity.
  - intros; apply make_move_finished; assumption.
  - induction ms as [|[f t] ms IH]; [reflexivity|].
    rewrite play_cons.
    destruct (make_move_finished st f t Hover) as [[e He]|He]; rewrite He;
      [reflexivity|].
    destruct (play ms st) eqn:Hp; simpl in IH |- *; exact IH.
Qed.

Lemma won_game_frozen_witness :
  game_state after_mate <> UNFINISHED /\
  make_move "a1" "a2" after_mate = Ret false after_mate /\
  make_move "a1" "j1" after_mate = Exc KeyError after_mate /\
  make_move "axx" "a1" after_mate = Exc ValueError after_mate.
Proof.
  assert (H : game_state after_mate <> UNFINISHED) by (vm_compute; discriminate).
  split; [exact H|split; [|split]].
  - apply (proj1 (won_game_frozen after_mate H) "a1"%string "a2"%string (0, 0) (1, 0));
      vm_compute; reflexivity.
  - apply (proj1 (proj2 (won_game_frozen after_mate H)) "a1"%string "j1"%string KeyError);
      vm_compute; reflexivity.
  - apply (proj1 (proj2 (proj2 (won_game_frozen after_mate H)))
             "axx"%string "a1"%string (0, 0) ValueError); vm_compute; reflexivity.
Defined.

Lemma on_board_iff (r c : Z) : on_board (r, c) = true <-> 0 <= r < 10 /\ 0 <= c < 9.
Proof.
  unfold on_board; simpl.
  rewrite !andb_true_iff, !Z.leb_le, !Z.ltb_lt; tauto.
Qed.

Lemma in_red_fortress_on_board (p : pos) : in_red_fortress p = true -> on_board p = true.
Proof.
  destruct p as [r c]; unfold in_red_fortress; simpl.
  rewrite !andb_true_iff, !Z.leb_le, !Z.ltb_lt, on_board_iff; lia.
Qed.

Lemma in_blue_fortress_on_board (p : pos) : in_blue_fortress p = true -> on_board p = true.
Proof.
  destruct p as [r c]; unfold in_blue_fortress; simpl.
  rewrite !andb_true_iff, !Z.leb_le, !Z.ltb_lt, on_board_iff; lia.
Qed.

(** Splitting a membership in a generated list of moves. *)
Ltac split_in H :=
  repeat match type of H with
  | In _ (_ ++ _) => apply in_app_or in H; destruct H as [H|H]
  | In _ (if ?c then _ else _) => let E := fresh "E" in destruct c eqn:E
  | In _ [] => destruct H
  | In _ (_ :: _) => destruct H as [H|H]
  end.

(** ** Every generated destination is a board cell other than the origin *)

Section Sound.
Variable pcs : list piece.
Variable b : board.
Variable opp : list pos.

Lemma palace_step_in (inF : pos -> bool) (p d : pos) :
  In d (palace_step inF b opp p) -> d = p /\ inF p = true.
Proof.
  unfold palace_step.
  destruct (inF p) eqn:E; simpl; [|intros []].
  destruct (occupied b p && negb (pos_in p opp)); simpl; [intros []|].
  intros [H|[]]; auto.
Qed.

Lemma palace_sound (inF : pos -> bool) (diag : list pos) (L d : pos) :
  (forall p, inF p = true -> on_board p = true) ->
  In d (palace_moves inF diag b opp L) ->
  on_board L = true /\ on_board d = true /\ d <> L.
Proof.
  intros HF H; destruct L as [r c]; unfold palace_moves in H.
  destruct (inF (r, c)) eqn:EL; simpl in H; [|destruct H].
  split; [apply HF; assumption|].
  split_in H;
    apply palace_step_in in H; destruct H as [-> Hin];
    (split; [apply HF; assumption | intros Heq; injection Heq; lia]).
Qed.

Lemma final_cell_in (p d : pos) :
  In d (horse_final b opp p) -> d = p /\ on_board p = true.
Proof.
  unfold horse_final.
  destruct (on_board p); simpl; [|intros []].
  destruct (occupied b p && negb (pos_in p opp)); simpl; [intros []|].
  intros [H|[]]; auto.
Qed.

Lemma horse_mid_in (L cur d : pos) :
  In d (horse_mid b opp L cur) ->
  on_board d = true /\
  exists u v, (u = 1 \/ u = -1) /\ (v = 1 \/ v = -1) /\ d = (fst cur + u, snd cur + v).
Proof.
  destruct cur as [r c]; unfold horse_mid; intros H.
  split_in H; apply final_cell_in in H; destruct H as [-> Hb];
    (split; [exact Hb|]); simpl;
    first [ exists 1, 1; split; [|split; [|f_equal]]; auto; lia
          | exists 1, (-1); split; [|split; [|f_equal]]; auto; lia
          | exists (-1), 1; split; [|split; [|f_equal]]; auto; lia
          | exists (-1), (-1); split; [|split; [|f_equal]]; auto; lia ].
Qed.

Lemma horse_sound (L d : pos) :
  In d (horse_moves b opp L) -> on_board L = true /\ on_board d = true /\ d <> L.
Proof.
  destruct L as [r c]; unfold horse_moves; intros H.
  destruct (on_board (r, c)) eqn:EL; cbn [negb] in H; [|destruct H].
  split; [reflexivity|].
  rewrite !in_app_iff in H.
  destruct H as [H|[H|[H|H]]]; apply horse_mid_in in H;
    destruct H as [Hb [u [v [Hu [Hv ->]]]]]; simpl;
    (split; [exact Hb | intros Heq; injection Heq; lia]).
Qed.

Lemma elephant_final_in (p d : pos) :
  In d (elephant_final b opp p) -> d = p /\ on_board p = true.
Proof.
  unfold elephant_final.
  destruct (on_board p); simpl; [|intros []].
  destruct (occupied b p && negb (pos_in p opp)); simpl; [intros []|].
  intros [H|[]]; auto.
Qed.

Lemma elephant_second_in (cur dir d : pos) :
  In d (elephant_second b opp cur dir) ->
  d = (fst cur + fst dir, snd cur + snd dir) /\ on_board d = true.
Proof.
  destruct cur as [r c]; unfold elephant_second; intros H.
  split_in H; apply elephant_final_in in H; destruct H as [-> Hb]; auto.
Qed.

Lemma elephant_first_in (L cur d : pos) :
  In d (elephant_first b opp L cur) ->
  on_board d = true /\
  exists u v, (u = 1 \/ u = -1) /\ (v = 1 \/ v = -1) /\
              d = (fst cur + 2 * u, snd cur + 2 * v).
Proof.
  destruct cur as [r c]; unfold elephant_first; intros H.
  split_in H; apply elephant_second_in in H; destruct H as [-> Hb];
    (split; [exact Hb|]); simpl;
    first [ exists 1, 1; split; [|split; [|f_equal]]; auto; lia
          | exists 1, (-1); split; [|split; [|f_equal]]; auto; lia
          | exists (-1), 1; split; [|split; [|f_equal]]; auto; lia
          | exists (-1), (-1); split; [|split; [|f_equal]]; auto; lia ].
Qed.

Lemma elephant_sound (L d : pos) :
  In d (elephant_moves b opp L) -> on_board L = true /\ on_board d = true /\ d <> L.
Proof.
  destruct L as [r c]; unfold elephant_moves; intros H.
  destruct (on_board (r, c)) eqn:EL; cbn [negb] in H; [|destruct H].
  split; [reflexivity|].
  rewrite !in_app_iff in H.
  destruct H as [H|[H|[H|H]]]; apply elephant_first_in in H;
    destruct H as [Hb [u [v [Hu [Hv ->]]]]]; cbn [fst snd];
    (split; [exact Hb | intros Heq; apply pair_equal_spec in Heq; lia]).
Qed.

End Sound.

Lemma pos_eqb_refl (p : pos) : pos_eqb p p = true.
Proof. apply pos_eqb_spec; reflexivity. Qed.

Lemma ray_off_origin (L : pos) (k dr dc : Z) :
  (dr <> 0 \/ dc <> 0) -> 1 <= k ->
  pos_eqb (fst L + k * dr, snd L + k * dc) L = false.
Proof.
  intros Hd Hk; apply not_true_iff_false; rewrite pos_eqb_spec.
  destruct L as [r c]; cbn [fst snd]; intros Heq; apply pair_equal_spec in Heq.
  destruct Heq as [H1 H2]; destruct Hd as [Hd|Hd]; nia.
Qed.

Lemma pos_eqb_sym (p q : pos) : pos_eqb p q = pos_eqb q p.
Proof.
  destruct (pos_eqb q p) eqn:E.
  - apply pos_eqb_spec in E; subst; apply pos_eqb_refl.
  - apply not_true_iff_false; rewrite pos_eqb_spec; intros ->.
    rewrite pos_eqb_refl in E; discriminate.
Qed.

Section Rays.
Variable b : board.
Variable opp : list pos.

(** Past its first call, the chariot walks the line [L + k * (dr, dc)]. *)
Lemma chariot_ray (L : pos) (fuel : nat) :
  forall k dr dc cur d, (dr <> 0 \/ dc <> 0) -> 1 <= k ->
  cur = (fst L + k * dr, snd L + k * dc) ->
  In d (chariot_go b opp L fuel cur (Some (dr, dc))) ->
  on_board d = true /\ exists j, k <= j /\ d = (fst L + j * dr, snd L + j * dc).
Proof.
  induction fuel as [|fuel IH]; intros k dr dc cur d Hd Hk -> H; [destruct H|].
  cbn [chariot_go] in H.
  rewrite pos_eqb_sym, (ray_off_origin L k dr dc Hd Hk) in H.
  destruct (on_board (fst L + k * dr, snd L + k * dc)) eqn:Eb;
    cbn [negb andb] in H; [|destruct H].
  destruct (is_diagonal (Some (dr, dc)) && _ && _); [destruct H|].
  destruct (occupied b _), (pos_in _ opp); cbn [negb andb] in H;
    repeat match type of H with
    | In _ (_ :: _) => destruct H as [H|H]
    | In _ [] => destruct H
    end;
    try (subst d; split; [exact Eb | exists k; split; [lia | reflexivity]]).
  apply (IH (k + 1) dr dc) in H; [| exact Hd | lia | cbn [fst snd]; f_equal; ring].
  destruct H as [Hb [j [Hj ->]]]; split; [exact Hb | exists j; split; [lia | reflexivity]].
Qed.

Lemma chariot_start (fuel : nat) (L d : pos) :
  In d (chariot_go b opp L (S fuel) L None) ->
  on_board L = true /\ on_board d = true /\ d <> L.
Proof.
  intros H; cbn [chariot_go] in H.
  destruct L as [r c]; rewrite pos_eqb_refl in H.
  destruct (on_board (r, c)) eqn:Eb; cbn [negb andb is_diagonal] in H; [|destruct H].
  split; [reflexivity|].
  split_in H;
    match type of H with
    | In _ (chariot_go _ _ _ _ ?cur (Some (?dr, ?dc))) =>
      destruct (chariot_ray (r, c) fuel 1 dr dc cur d) as [Hb [j [Hj ->]]];
        [ lia | lia | cbn [fst snd]; f_equal; ring | exact H | ]
    end;
    (split; [exact Hb | cbn [fst snd]; intros Heq; apply pair_equal_spec in Heq; lia]).
Qed.

Lemma chariot_sound (L d : pos) :
  In d (chariot_moves b opp L) -> on_board L = true /\ on_board d = true /\ d <> L.
Proof. apply chariot_start. Qed.


Lemma cannon_next_orth (x y dr dc : Z) :
  orth dr dc -> exists n, cannon_next (x, y) (Some (dr, dc)) = (n, dr, dc) /\
                          n = (x + dr, y + dc).
Proof.
  intros [[-> ->]|[[-> ->]|[[-> ->]|[-> ->]]]]; eexists;
    (split; [reflexivity | f_equal; ring]).
Qed.

(** Past its first call, the cannon walks the line [L + k * (dr, dc)]. *)
Lemma cannon_ray (L : pos) (positions : list pos) (fuel : nat) :
  forall count k dr dc cur d, orth dr dc -> 1 <= k ->
  cur = (fst L + k * dr, snd L + k * dc) ->
  In d (cannon_go b opp L fuel positions count cur (Some (dr, dc))) ->
  on_board d = true /\ exists j, k <= j /\ d = (fst L + j * dr, snd L + j * dc).
Proof.
  induction fuel as [|fuel IH]; intros count k dr dc cur d Ho Hk -> H; [destruct H|].
  assert (Hd : dr <> 0 \/ dc <> 0) by (unfold orth in Ho; lia).
  cbn [cannon_go] in H.
  destruct (cannon_next_orth (fst L + k * dr) (snd L + k * dc) dr dc Ho) as [n [En Hn]].
  rewrite En, (ray_off_origin L k dr dc Hd Hk) in H.
  destruct (on_board (fst L + k * dr, snd L + k * dc)) eqn:Eb;
    cbn [negb andb] in H; [|destruct H].
  set (p := (fst L + k * dr, snd L + k * dc)) in *.
  destruct (occupied b p), (pos_in p positions), (1 <? count)%nat,
    (count =? 1)%nat, (pos_in p opp); cbn [negb andb] in H;
    repeat match type of H with
    | In _ (_ :: _) => destruct H as [H|H]
    | In _ [] => destruct H
    end;
    try (subst d; split; [exact Eb | exists k; split; [lia | reflexivity]]);
    (apply (IH _ (k + 1) dr dc) in H; [| exact Ho | lia | subst n; cbn [fst snd]; f_equal; ring];
     destruct H as [Hb [j [Hj ->]]]; split; [exact Hb | exists j; split; [lia | reflexivity]]).
Qed.

Lemma corner_get_in (p v : pos) :
  (corner_get red_corners p = Some v \/ corner_get blue_corners p = Some v) ->
  on_board v = true /\ v <> p.
Proof.
  destruct p as [r c]; intros H.
  destruct H as [H|H]; cbn [corner_get red_corners blue_corners] in H;
  repeat match type of H with
  | (if pos_eqb ?k ?q then _ else _) = _ =>
    let E := fresh "E" in destruct (pos_eqb k q) eqn:E;
      [apply pos_eqb_spec in E; rewrite <- E; injection H as <-;
       (split; [reflexivity | discriminate]) |]
  | None = _ => discriminate
  end.
Qed.

Lemma cannon_start (pcs : list piece) (fuel : nat) (L d : pos) :
  In d (cannon_go b opp L (S fuel) (cannon_positions pcs b) 0 L None) ->
  on_board L = true /\ on_board d = true /\ d <> L.
Proof.
  intros H; cbn [cannon_go] in H.
  destruct L as [r c]; rewrite pos_eqb_refl in H; cbn [cannon_next] in H.
  destruct (on_board (r, c)) eqn:Eb; cbn [negb andb] in H; [|destruct H].
  split; [reflexivity|].
  assert (Ho : orth 0 (-1)) by (unfold orth; lia).
  assert (Hx : forall dr dc cur count,
            In d (cannon_go b opp (r, c) fuel (cannon_positions pcs b) count cur (Some (dr, dc))) ->
            orth dr dc ->
            cur = (fst (r, c) + 1 * dr, snd (r, c) + 1 * dc) ->
            on_board d = true /\ d <> (r, c)).
  { intros dr dc cur count Hin Hdc Hc.
    destruct (cannon_ray (r, c) _ fuel count 1 dr dc cur d Hdc ltac:(lia) Hc Hin)
      as [Hb [j [Hj ->]]].
    split; [exact Hb | cbn [fst snd]; intros Heq; apply pair_equal_spec in Heq;
                       unfold orth in Hdc; lia]. }
  destruct (occupied b (r, c)), (pos_in (r, c) (cannon_positions pcs b));
    cbn [negb andb Nat.ltb Nat.leb Nat.eqb] in H;
    try (apply (Hx _ _ _ _ H); [exact Ho | cbn [fst snd]; f_equal; ring]).
  rewrite !in_app_iff in H.
  destruct H as [H|[H|[H|[H|H]]]].
  - unfold cannon_diagonals in H; rewrite in_app_iff in H.
    destruct H as [H|H];
      [ destruct (corner_get red_corners (r, c)) as [v|] eqn:Ev
      | destruct (corner_get blue_corners (r, c)) as [v|] eqn:Ev ];
      try destruct H;
      (destruct (pos_in _ _); [destruct H as [<-|[]] | destruct H]);
      apply corner_get_in; auto.
  - apply (Hx _ _ _ _ H); [unfold orth; lia | cbn [fst snd]; f_equal; ring].
  - apply (Hx _ _ _ _ H); [unfold orth; lia | cbn [fst snd]; f_equal; ring].
  - apply (Hx _ _ _ _ H); [unfold orth; lia | cbn [fst snd]; f_equal; ring].
  - apply (Hx _ _ _ _ H); [unfold orth; lia | cbn [fst snd]; f_equal; ring].
Qed.

Lemma cannon_sound (pcs : list piece) (L d : pos) :
  In d (cannon_moves pcs b opp L) -> on_board L = true /\ on_board d = true /\ d <> L.
Proof. apply cannon_start. Qed.

End Rays.

(** ** The Soldier *)

Lemma soldier_step_in (b : board) (opp : list pos) (p d : pos) :
  In d (soldier_step b opp p) -> d = p /\ on_board p = true.
Proof.
  unfold soldier_step.
  destruct (on_board p); simpl; [|intros []].
  destruct (occupied b p && negb (pos_in p opp)); simpl; [intros []|].
  intros [H|[]]; auto.
Qed.


Ltac fixed_cell E :=
  apply pos_eqb_spec in E; injection E as -> ->.

Lemma red_soldier_in (b : board) (opp : list pos) (loc d : pos) :
  In d (red_soldier_moves b opp loc) ->
  on_board loc = true /\ on_board d = true /\ red_soldier_shape loc d.
Proof.
  destruct loc as [r c]; unfold red_soldier_moves, red_soldier_shape; intros H.
  destruct (on_board (r, c)) eqn:Eb; cbn [negb] in H; [|destruct H].
  split; [reflexivity|].
  rewrite !in_app_iff in H; destruct H as [H|[H|[H|H]]];
    try (apply soldier_step_in in H; destruct H as [-> Hb];
         split; [exact Hb | cbn [fst snd]; lia]).
  destruct (pos_eqb (r, c) (7, 3)) eqn:E1;
    [fixed_cell E1; destruct H as [<-|[]]; split; [reflexivity | cbn; lia]|].
  destruct (pos_eqb (r, c) (7, 5)) eqn:E2;
    [fixed_cell E2; destruct H as [<-|[]]; split; [reflexivity | cbn; lia]|].
  destruct (pos_eqb (r, c) (8, 4)) eqn:E3;
    [fixed_cell E3; destruct H as [<-|[<-|[]]]; (split; [reflexivity | cbn; lia])
                                             | destruct H].
Qed.

Lemma blue_soldier_in (b : board) (opp : list pos) (loc d : pos) :
  In d (blue_soldier_moves b opp loc) ->
  on_board loc = true /\ on_board d = true /\ blue_soldier_shape loc d.
Proof.
  destruct loc as [r c]; unfold blue_soldier_moves, blue_soldier_shape; intros H.
  destruct (on_board (r, c)) eqn:Eb; cbn [negb] in H; [|destruct H].
  split; [reflexivity|].
  rewrite !in_app_iff in H; destruct H as [H|[H|[H|H]]];
    try (apply soldier_step_in in H; destruct H as [-> Hb];
         split; [exact Hb | cbn [fst snd]; lia]).
  destruct (pos_eqb (r, c) (2, 3)) eqn:E1;
    [fixed_cell E1; destruct H as [<-|[]]; split; [reflexivity | cbn; lia]|].
  destruct (pos_eqb (r, c) (2, 5)) eqn:E2;
    [fixed_cell E2; destruct H as [<-|[]]; split; [reflexivity | cbn; lia]|].
  destruct (pos_eqb (r, c) (1, 4)) eqn:E3;
    [fixed_cell E3; destruct H as [<-|[<-|[]]]; (split; [reflexivity | cbn; lia])
                                             | destruct H].
Qed.

Lemma red_soldier_dest_in (b : board) (opp : list pos) (loc d : pos) :
  In d (red_soldier_moves b opp loc) -> red_soldier_dest loc d.
Proof.
  destruct loc as [r c]; unfold red_soldier_moves, red_soldier_dest; intros H.
  destruct (on_board (r, c)) eqn:Eb; cbn [negb] in H; [|destruct H].
  cbn [fst snd]; rewrite !in_app_iff in H; destruct H as [H|[H|[H|H]]];
    try (apply soldier_step_in in H; destruct H as [-> _]; tauto).
  right; left; unfold blue_fortress_diagonal_step.
  destruct (pos_eqb (r, c) (7, 3)) eqn:E1;
    [fixed_cell E1; destruct H as [<-|[]]; tauto|].
  destruct (pos_eqb (r, c) (7, 5)) eqn:E2;
    [fixed_cell E2; destruct H as [<-|[]]; tauto|].
  destruct (pos_eqb (r, c) (8, 4)) eqn:E3;
    [fixed_cell E3; destruct H as [<-|[<-|[]]]; tauto | destruct H].
Qed.

Lemma blue_soldier_dest_in (b : board) (opp : list pos) (loc d : pos) :
  In d (blue_soldier_moves b opp loc) -> blue_soldier_dest loc d.
Proof.
  destruct loc as [r c]; unfold blue_soldier_moves, blue_soldier_dest; intros H.
  destruct (on_board (r, c)) eqn:Eb; cbn [negb] in H; [|destruct H].
  cbn [fst snd]; rewrite !in_app_iff in H; destruct H as [H|[H|[H|H]]];
    try (apply soldier_step_in in H; destruct H as [-> _]; tauto).
  right; left; unfold red_fortress_diagonal_step.
  destruct (pos_eqb (r, c) (2, 3)) eqn:E1;
    [fixed_cell E1; destruct H as [<-|[]]; tauto|].
  destruct (pos_eqb (r, c) (2, 5)) eqn:E2;
    [fixed_cell E2; destruct H as [<-|[]]; tauto|].
  destruct (pos_eqb (r, c) (1, 4)) eqn:E3;
    [fixed_cell E3; destruct H as [<-|[<-|[]]]; tauto | destruct H].
Qed.

(** Claim C3 (amended): every destination of a red Soldier is one row
    forward, row-increasing (the red side starts on rows 0 to 3), straight or
    diagonally along the blue fortress diagonals, or one column aside in the
    same row; every destination of a blue Soldier is one row forward,
    row-decreasing, straight or diagonally along the red fortress diagonals,
    or one column aside. Neither ever moves backward. *)
Theorem soldier_moves_direction (pcs : list piece) (b : board) (opp : list pos) (loc d : pos) :
  (In d (get_legal_moves pcs b opp RedSoldier loc) -> red_soldier_dest loc d) /\
  (In d (get_legal_moves pcs b opp BlueSoldier loc) -> blue_soldier_dest loc d).
Proof.
  split; intros H.
  - exact (red_soldier_dest_in b opp loc d H).
  - exact (blue_soldier_dest_in b opp loc d H).
Qed.

Lemma soldier_moves_direction_witness :
  In (8, 4) (get_legal_moves (pieces (game_of soldier_corner_pieces Red))
               (board_of (game_of soldier_corner_pieces Red)) [] RedSoldier (7, 3)) /\
  red_soldier_dest (7, 3) (8, 4).
Proof.
  assert (H : In (8, 4) (get_legal_moves (pieces (game_of soldier_corner_pieces Red))
               (board_of (game_of soldier_corner_pieces Red)) [] RedSoldier (7, 3)))
    by (apply pos_in_spec; vm_compute; reflexivity).
  split; [exact H|].
  exact (proj1 (soldier_moves_direction (pieces (game_of soldier_corner_pieces Red))
                  (board_of (game_of soldier_corner_pieces Red)) [] (7, 3) (8, 4)) H).
Defined.

(** Every destination that [get_legal_moves] generates is a board cell other
    than the piece's own, and the piece itself stands on the board. *)
Lemma moves_sound (pcs : list piece) (b : board) (opp : list pos) (c : cls) (L d : pos) :
  In d (get_legal_moves pcs b opp c L) ->
  on_board L = true /\ on_board d = true /\ d <> L.
Proof.
  destruct c; simpl get_legal_moves; intros H.
  - exact (palace_sound b opp _ _ L d in_blue_fortress_on_board H).
  - exact (palace_sound b opp _ _ L d in_red_fortress_on_board H).
  - exact (palace_sound b opp _ _ L d in_blue_fortress_on_board H).
  - exact (palace_sound b opp _ _ L d in_red_fortress_on_board H).
  - exact (horse_sound b opp L d H).
  - exact (elephant_sound b opp L d H).
  - exact (chariot_sound b opp L d H).
  - exact (cannon_sound b opp pcs L d H).
  - apply red_soldier_in in H; destruct H as [H1 [H2 H3]].
    split; [exact H1 | split; [exact H2|]].
    destruct L, d; unfold red_soldier_shape in H3; cbn [fst snd] in H3;
      intros Heq; apply pair_equal_spec in Heq; lia.
  - apply blue_soldier_in in H; destruct H as [H1 [H2 H3]].
    split; [exact H1 | split; [exact H2|]].
    destruct L, d; unfold blue_soldier_shape in H3; cbn [fst snd] in H3;
      intros Heq; apply pair_equal_spec in Heq; lia.
Qed.

Lemma pos_in_own_moves (pcs : list piece) (b : board) (opp : list pos) (c : cls) (L : pos) :
  pos_in L (get_legal_moves pcs b opp c L) = false.
Proof.
  apply not_true_iff_false; rewrite pos_in_spec; intros H.
  apply moves_sound in H; destruct H as [_ [_ H]]; apply H; reflexivity.
Qed.

Lemma is_in_check_cases (player : color) (st : state) :
  (exists b, is_in_check player st = Ret b st) \/ (exists e, is_in_check player st = Exc e st).
Proof.
  unfold is_in_check; destruct (is_in_check_r st player) as [e|b]; eauto.
Qed.

(** Claim C6: with the game UNFINISHED and the origin holding a piece of
    the player to move (whose recorded location is that cell), a call
    [make_move m m] returns True and passes the turn exactly when
    [is_in_check] finds that player not in check, returns False leaving
    the game as it is when the player is in check, and propagates the
    exception of [is_in_check] otherwise; the board is never changed. *)
Theorem pass_iff_not_in_check (st : state) (m : string) (p : pos) (i : nat)
  (Hstate : game_state st = UNFINISHED)
  (Hm : to_row_column m = inr p)
  (Hcell : board_get (board_of st) p = inr (Some i))
  (Howner : owner (piece_of st i) = current_turn st)
  (Hloc : location (piece_of st i) = Some p) :
  (is_in_check (current_turn st) st = Ret false st ->
     make_move m m st = Ret true (pass_turn st)) /\
  (is_in_check (current_turn st) st = Ret true st ->
     make_move m m st = Ret false st) /\
  (forall e, is_in_check (current_turn st) st = Exc e st ->
     make_move m m st = Exc e st) /\
  board_of (pass_turn st) = board_of st.
Proof.
  assert (Hrun : forall r, is_in_check (current_turn st) st = r ->
            make_move m m st =
            match r with
            | Ret chk s' => (if negb chk then change_turn ;;; ret true
                             else make_move_tail i (current_turn st) p p) s'
            | Exc e s' => Exc e s'
            end).
  { intros r Hr; unfold make_move, bind, lift, get, ret, get_board_m.
    rewrite Hm; cbv beta iota; rewrite Hstate; cbn [gstate_eqb negb].
    rewrite Hcell; cbv beta iota; rewrite Howner, String.eqb_refl.
    destruct (current_turn st); cbn [color_eqb negb]; rewrite Hr; reflexivity. }
  split; [|split; [|split]].
  - intros H; rewrite (Hrun _ H); reflexivity.
  - intros H; rewrite (Hrun _ H); cbn [negb].
    unfold make_move_tail, bind, lift, get, ret, piece_moves.
    rewrite Hloc, pos_in_own_moves; reflexivity.
  - intros e H; rewrite (Hrun _ H); reflexivity.
  - reflexivity.
Qed.

Lemma pass_iff_not_in_check_witness :
  (is_in_check (current_turn new_game) new_game = Ret false new_game ->
     make_move "a7" "a7" new_game = Ret true (pass_turn new_game)) /\
  (is_in_check (current_turn new_game) new_game = Ret true new_game ->
     make_move "a7" "a7" new_game = Ret false new_game) /\
  (forall e, is_in_check (current_turn new_game) new_game = Exc e new_game ->
     make_move "a7" "a7" new_game = Exc e new_game) /\
  board_of (pass_turn new_game) = board_of new_game.
Proof.
  apply (pass_iff_not_in_check new_game "a7"%string (6, 0) 22);
    vm_compute; reflexivity.
Defined.

Lemma general_position_only (st : state) (l : list nat) (g : nat) :
  only_general st l g -> general_position st l = location (piece_of st g).
Proof.
  unfold only_general, general_position.
  assert (Hnone : forall l acc,
            filter (fun i => String.eqb (get_type (pcls (piece_of st i))) "General") l = [] ->
            fold_left (fun acc i => if String.eqb (get_type (pcls (piece_of st i))) "General"
                                    then location (piece_of st i) else acc) l acc = acc).
  { induction l0 as [|j l0 IH]; intros acc H; [reflexivity|].
    simpl in H |- *; destruct (String.eqb _ _); [discriminate|].
    apply IH; exact H. }
  generalize (@None pos); induction l as [|j l IH]; intros acc H; [discriminate|].
  simpl in H |- *; destruct (String.eqb _ _).
  - injection H as -> H; apply Hnone; exact H.
  - apply IH; exact H.
Qed.

Lemma union_moves_located (st : state) (opp : list pos) (l : list nat) :
  located st l = true ->
  union_moves st opp l =
  inr (flat_map (fun q => match location (piece_of st q) with
                          | Some Lq => get_legal_moves (pieces st) (board_of st) opp
                                                       (pcls (piece_of st q)) Lq
                          | None => []
                          end) l).
Proof.
  unfold located; induction l as [|q l IH]; intros H; [reflexivity|].
  simpl in H |- *; apply andb_true_iff in H; destruct H as [Hq Hl].
  unfold piece_moves; destruct (location (piece_of st q)); [|discriminate].
  rewrite (IH Hl); reflexivity.
Qed.

(** Claim C7: when [g] is the only General in side [S]'s collection,
    standing at [pg], and every piece of the opponent's collection has a
    location (as in every state the game reaches), [is_in_check S]
    returns, without changing the game, True exactly when [pg] is among
    the moves [get_legal_moves(board, positions of S's pieces)] of some
    piece of the opponent. [get_opposition_positions st (other S)] is the
    list of the locations of [S]'s pieces. *)
Theorem is_in_check_union (st : state) (S : color) (g : nat) (pg : pos)
  (Hgen : only_general st (side_pieces st S) g)
  (Hg : location (piece_of st g) = Some pg)
  (Hloc : located st (side_pieces st (other S)) = true) :
  exists chk, is_in_check S st = Ret chk st /\
  (chk = true <->
   exists q Lq, In q (side_pieces st (other S)) /\ location (piece_of st q) = Some Lq /\
     In pg (get_legal_moves (pieces st) (board_of st)
                            (get_opposition_positions st (other S))
                            (pcls (piece_of st q)) Lq)).
Proof.
  unfold is_in_check, is_in_check_r.
  rewrite (general_position_only st _ g Hgen), Hg, (union_moves_located st _ _ Hloc).
  eexists; split; [reflexivity|].
  rewrite pos_in_spec, in_flat_map; split.
  - intros [q [Hq Hin]]; destruct (location (piece_of st q)) as [Lq|] eqn:E;
      [|destruct Hin].
    exists q, Lq; auto.
  - intros [q [Lq [Hq [E Hin]]]]; exists q; rewrite E; auto.
Qed.

Lemma is_in_check_union_witness :
  exists chk, is_in_check Red new_game = Ret chk new_game /\
  (chk = true <->
   exists q Lq, In q (side_pieces new_game (other Red)) /\
     location (piece_of new_game q) = Some Lq /\
     In (1, 4) (get_legal_moves (pieces new_game) (board_of new_game)
                                (get_opposition_positions new_game (other Red))
                                (pcls (piece_of new_game q)) Lq)).
Proof.
  apply (is_in_check_union new_game Red 1 (1, 4)); vm_compute; reflexivity.
Defined.

(** ** Python lists updated by index *)

Lemma length_list_set {A} (l : list A) (n : nat) (x : A) :
  List.length (list_set l n x) = List.length l.
Proof.
  revert n; induction l as [|y l IH]; intros [|n]; simpl; auto.
Qed.

Lemma nth_list_set_eq {A} (l : list A) (n : nat) (x d : A) :
  (n < List.length l)%nat -> nth n (list_set l n x) d = x.
Proof.
  revert n; induction l as [|y l IH]; intros [|n] H; simpl in *; try lia;
    try reflexivity; apply IH; lia.
Qed.

Lemma nth_list_set_neq {A} (l : list A) (n m : nat) (x d : A) :
  n <> m -> nth m (list_set l n x) d = nth m l d.
Proof.
  revert n m; induction l as [|y l IH]; intros [|n] [|m] H; simpl; try reflexivity;
    try lia; apply IH; lia.
Qed.

Lemma list_set_set {A} (l : list A) (n : nat) (x y : A) :
  list_set (list_set l n x) n y = list_set l n y.
Proof.
  revert n; induction l as [|z l IH]; intros [|n]; simpl; auto.
  rewrite IH; reflexivity.
Qed.

Lemma list_set_nth {A} (l : list A) (n : nat) (d : A) :
  list_set l n (nth n l d) = l.
Proof.
  revert n; induction l as [|z l IH]; intros [|n]; simpl; auto.
  rewrite IH; reflexivity.
Qed.

Lemma list_set_comm {A} (l : list A) (n m : nat) (x y : A) :
  n <> m -> list_set (list_set l n x) m y = list_set (list_set l m y) n x.
Proof.
  revert n m; induction l as [|z l IH]; intros [|n] [|m] H; simpl; auto; try lia.
  rewrite IH; [reflexivity | lia].
Qed.

(** ** Board cells *)

Lemma board_shape_rows (b : board) (r : nat) :
  board_shape b = true -> (r < 10)%nat -> List.length (nth r b []) = 9%nat /\ List.length b = 10%nat.
Proof.
  unfold board_shape; rewrite andb_true_iff, Nat.eqb_eq, forallb_forall.
  intros [Hl Hrows] Hr; split; [|exact Hl].
  apply Nat.eqb_eq, Hrows, nth_In; lia.
Qed.

Lemma on_board_nat (p : pos) :
  on_board p = true ->
  (Z.to_nat (fst p) < 10)%nat /\ (Z.to_nat (snd p) < 9)%nat /\
  0 <= fst p /\ 0 <= snd p.
Proof.
  destruct p as [r c]; rewrite on_board_iff; cbn [fst snd]; lia.
Qed.

Lemma py_index_ok (n : Z) (len : nat) :
  0 <= n < Z.of_nat len -> py_index n len = Some (Z.to_nat n).
Proof.
  intros H; unfold py_index.
  replace ((0 <=? n) && (n <? Z.of_nat len)) with true
    by (symmetry; apply andb_true_iff; rewrite Z.leb_le, Z.ltb_lt; lia).
  reflexivity.
Qed.

Lemma board_get_ok (b : board) (p : pos) :
  board_shape b = true -> on_board p = true -> board_get b p = inr (cell b p).
Proof.
  intros Hs Hp; destruct (on_board_nat p Hp) as [Hr [Hc [Hr0 Hc0]]].
  destruct (board_shape_rows b _ Hs Hr) as [Hrow Hlen].
  unfold board_get; rewrite Hlen, py_index_ok by lia; cbv beta iota zeta.
  rewrite Hrow, py_index_ok by lia.
  unfold cell; rewrite Hp; reflexivity.
Qed.

Lemma board_set_ok (b : board) (p : pos) (v : option nat) :
  board_shape b = true -> on_board p = true -> board_set b p v = inr (put_cell b p v).
Proof.
  intros Hs Hp; destruct (on_board_nat p Hp) as [Hr [Hc [Hr0 Hc0]]].
  destruct (board_shape_rows b _ Hs Hr) as [Hrow Hlen].
  unfold board_set; rewrite Hlen, py_index_ok by lia; cbv beta iota zeta.
  rewrite Hrow, py_index_ok by lia; reflexivity.
Qed.

Lemma board_shape_put (b : board) (p : pos) (v : option nat) :
  board_shape b = true -> on_board p = true -> board_shape (put_cell b p v) = true.
Proof.
  intros Hs Hp; destruct (on_board_nat p Hp) as [Hr [Hc _]].
  destruct (board_shape_rows b _ Hs Hr) as [Hrow Hlen].
  unfold board_shape in *; apply andb_true_iff in Hs; destruct Hs as [_ Hall].
  unfold put_cell; rewrite length_list_set, Hlen; cbn [Nat.eqb andb].
  rewrite forallb_forall in Hall |- *; intros row Hin.
  apply In_nth with (d := []) in Hin; destruct Hin as [k [Hk <-]].
  rewrite length_list_set in Hk.
  destruct (Nat.eq_dec (Z.to_nat (fst p)) k) as [<-|Hne].
  - rewrite nth_list_set_eq by lia; rewrite length_list_set, Hrow; reflexivity.
  - rewrite nth_list_set_neq by exact Hne; apply Hall, nth_In; exact Hk.
Qed.

Lemma pos_neq_nat (p q : pos) :
  on_board p = true -> on_board q = true -> p <> q ->
  Z.to_nat (fst p) <> Z.to_nat (fst q) \/
  (Z.to_nat (fst p) = Z.to_nat (fst q) /\ Z.to_nat (snd p) <> Z.to_nat (snd q)).
Proof.
  destruct p as [r c], q as [r' c']; rewrite !on_board_iff; cbn [fst snd].
  intros Hp Hq Hne.
  destruct (Z.eq_dec r r') as [<-|Hr]; [|left; lia].
  right; split; [reflexivity|]; intros Hc; apply Hne; f_equal; lia.
Qed.

Lemma cell_put_eq (b : board) (p : pos) (v : option nat) :
  board_shape b = true -> on_board p = true -> cell (put_cell b p v) p = v.
Proof.
  intros Hs Hp; destruct (on_board_nat p Hp) as [Hr [Hc _]].
  destruct (board_shape_rows b _ Hs Hr) as [Hrow Hlen].
  unfold cell, put_cell; rewrite Hp.
  rewrite nth_list_set_eq by lia; rewrite nth_list_set_eq by lia; reflexivity.
Qed.

Lemma cell_put_neq (b : board) (p q : pos) (v : option nat) :
  board_shape b = true -> on_board p = true -> on_board q = true -> p <> q ->
  cell (put_cell b p v) q = cell b q.
Proof.
  intros Hs Hp Hq Hne; unfold cell, put_cell; rewrite Hq.
  destruct (on_board_nat p Hp) as [Hr0 _].
  destruct (board_shape_rows b _ Hs Hr0) as [Hrow Hlen].
  destruct (pos_neq_nat p q Hp Hq Hne) as [Hr|[Hr Hc]].
  - rewrite nth_list_set_neq by exact Hr; reflexivity.
  - rewrite <- Hr, nth_list_set_eq by lia.
    rewrite nth_list_set_neq by exact Hc; reflexivity.
Qed.

Lemma put_put (b : board) (p : pos) (v w : option nat) :
  board_shape b = true -> on_board p = true ->
  put_cell (put_cell b p v) p w = put_cell b p w.
Proof.
  intros Hs Hp; destruct (on_board_nat p Hp) as [Hr _].
  destruct (board_shape_rows b _ Hs Hr) as [Hrow Hlen].
  unfold put_cell; rewrite nth_list_set_eq by lia.
  rewrite list_set_set, list_set_set; reflexivity.
Qed.

Lemma put_cell_same (b : board) (p : pos) :
  on_board p = true -> put_cell b p (cell b p) = b.
Proof.
  intros Hp; unfold put_cell, cell; rewrite Hp.
  rewrite list_set_nth, list_set_nth; reflexivity.
Qed.

Lemma put_comm (b : board) (p q : pos) (v w : option nat) :
  board_shape b = true -> on_board p = true -> on_board q = true -> p <> q ->
  put_cell (put_cell b p v) q w = put_cell (put_cell b q w) p v.
Proof.
  intros Hs Hp Hq Hne.
  destruct (on_board_nat p Hp) as [Hrp _], (on_board_nat q Hq) as [Hrq _].
  destruct (board_shape_rows b _ Hs Hrp) as [Hrowp Hlen].
  unfold put_cell.
  destruct (pos_neq_nat p q Hp Hq Hne) as [Hr|[Hr Hc]].
  - rewrite (nth_list_set_neq b _ _ _ _ Hr).
    rewrite (nth_list_set_neq b _ _ _ _ (not_eq_sym Hr)).
    apply list_set_comm; exact Hr.
  - rewrite <- Hr, !nth_list_set_eq by lia.
    rewrite list_set_set, list_set_set, list_set_comm by exact Hc; reflexivity.
Qed.

(** ** Facts of a consistent state *)

Lemma in_board_cells (p : pos) : on_board p = true -> In p board_cells.
Proof.
  destruct p as [r c]; rewrite on_board_iff; intros [Hr Hc].
  unfold board_cells; apply in_flat_map; exists (Z.to_nat r); split.
  - apply in_seq; lia.
  - apply in_map_iff; exists (Z.to_nat c); split.
    + f_equal; lia.
    + apply in_seq; lia.
Qed.

Lemma nodupb_NoDup (l : list nat) : nodupb l = true -> NoDup l.
Proof.
  induction l as [|x l IH]; simpl; intros H; [constructor|].
  apply andb_true_iff in H; destruct H as [Hx Hl].
  constructor; [|apply IH; exact Hl].
  intros Hin; apply negb_true_iff, not_true_iff_false in Hx; apply Hx.
  apply existsb_exists; exists x; split; [exact Hin | apply Nat.eqb_refl].
Qed.

Lemma located_in (st : state) (l : list nat) (i : nat) :
  located st l = true -> In i l -> exists L, location (piece_of st i) = Some L.
Proof.
  unfold located; rewrite forallb_forall; intros H Hi; specialize (H i Hi).
  destruct (location (piece_of st i)); [eauto | discriminate].
Qed.

Lemma in_side_spec (st : state) (c : color) (i : nat) :
  in_side st c i = true <-> In i (side_pieces st c).
Proof.
  unfold in_side; rewrite existsb_exists; split.
  - intros [x [Hx E]]; apply Nat.eqb_eq in E; subst; exact Hx.
  - intros H; exists i; split; [exact H | apply Nat.eqb_refl].
Qed.

Lemma color_eqb_spec (a c : color) : color_eqb a c = true <-> a = c.
Proof. destruct a, c; simpl; split; congruence. Qed.


Lemma consistent_spec (st : state) : consistent st = true -> consistent_facts st.
Proof.
  unfold consistent, cells_consistent, owners_consistent.
  rewrite !andb_true_iff, !forallb_forall.
  intros [[[[[[Hs Hcells] [Hr Hb]] Hnr] Hnb] Hlr] Hlb].
  constructor; auto using nodupb_NoDup.
  - intros p i Hp Hc; specialize (Hcells p (in_board_cells p Hp)).
    rewrite Hc, !andb_true_iff, Nat.ltb_lt, in_side_spec in Hcells.
    destruct Hcells as [[Hi Hl] Hside]; split; [exact Hi|]; split; [|exact Hside].
    destruct (location (piece_of st i)) as [q|]; [|discriminate].
    apply pos_eqb_spec in Hl; subst; reflexivity.
  - intros i Hi; apply color_eqb_spec, Hr, Hi.
  - intros i Hi; apply color_eqb_spec, Hb, Hi.
Qed.

Lemma list_remove_perm (x : nat) (l : list nat) :
  In x l -> exists l', list_remove x l = Some l' /\ Permutation l (x :: l').
Proof.
  induction l as [|y l IH]; intros H; [destruct H|]; simpl.
  destruct (Nat.eqb x y) eqn:E.
  - apply Nat.eqb_eq in E; subst; eexists; split; [reflexivity | apply Permutation_refl].
  - destruct H as [->|H]; [rewrite Nat.eqb_refl in E; discriminate|].
    destruct (IH H) as [l' [Hr Hp]]; rewrite Hr; simpl.
    eexists; split; [reflexivity|].
    apply (Permutation_trans (l' := y :: x :: l')); [constructor; exact Hp | constructor].
Qed.

(** ** Steps of the monad *)

Lemma bind_ret {A B} (m : M A) (k : A -> M B) (s s' : state) (a : A) :
  m s = Ret a s' -> bind m k s = k a s'.
Proof. unfold bind; intros ->; reflexivity. Qed.

Lemma bind_get_board {B} (p : pos) (k : option nat -> M B) (st : state) :
  board_shape (board_of st) = true -> on_board p = true ->
  bind (get_board_m p) k st = k (cell (board_of st) p) st.
Proof.
  intros Hs Hp; unfold bind, get_board_m; rewrite board_get_ok by assumption; reflexivity.
Qed.

Lemma bind_set_board {B} (p : pos) (v : option nat) (k : unit -> M B) (st : state) :
  board_shape (board_of st) = true -> on_board p = true ->
  bind (set_board_m p v) k st = k tt (set_board st (put_cell (board_of st) p v)).
Proof.
  intros Hs Hp; unfold bind, set_board_m; rewrite board_set_ok by assumption; reflexivity.
Qed.

Lemma bind_set_location {B} (i : nat) (l : option pos) (k : unit -> M B) (st : state) :
  bind (set_location_m (Some i) l) k st = k tt (set_location st i l).
Proof. reflexivity. Qed.

Lemma bind_get {B} (k : state -> M B) (st : state) : bind get k st = k st st.
Proof. reflexivity. Qed.

Lemma is_in_check_ok (c : color) (st : state) :
  located st (side_pieces st (other c)) = true -> exists chk, is_in_check c st = Ret chk st.
Proof.
  intros H; unfold is_in_check, is_in_check_r.
  rewrite (union_moves_located st _ _ H); eauto.
Qed.

Lemma bind_assoc {A B C} (m : M A) (k1 : A -> M B) (k2 : B -> M C) (s : state) :
  bind (bind m k1) k2 s = bind m (fun x => bind (k1 x) k2) s.
Proof. unfold bind; destruct (m s); reflexivity. Qed.

Lemma bind_ret_l {A B} (a : A) (k : A -> M B) (s : state) : bind (ret a) k s = k a s.
Proof. reflexivity. Qed.

Lemma bind_remove_red {B} (o : nat) (l' : list nat) (k : unit -> M B) (st : state) :
  In o (red_pieces st) -> list_remove o (red_pieces st) = Some l' ->
  bind (remove_piece_m o) k st = k tt (set_red st l').
Proof.
  intros Hin Hr; unfold bind, remove_piece_m.
  replace (existsb (Nat.eqb o) (red_pieces st)) with true
    by (symmetry; apply (in_side_spec st Red o); exact Hin).
  rewrite Hr; reflexivity.
Qed.

Lemma bind_remove_blue {B} (o : nat) (l' : list nat) (k : unit -> M B) (st : state) :
  ~ In o (red_pieces st) -> list_remove o (blue_pieces st) = Some l' ->
  bind (remove_piece_m o) k st = k tt (set_blue st l').
Proof.
  intros Hin Hr; unfold bind, remove_piece_m.
  replace (existsb (Nat.eqb o) (red_pieces st)) with false
    by (symmetry; apply not_true_iff_false; rewrite (in_side_spec st Red o); exact Hin).
  rewrite Hr; reflexivity.
Qed.

Lemma bind_put {B} (s' : state) (k : unit -> M B) (s : state) :
  bind (put s') k s = k tt s'.
Proof. reflexivity. Qed.

Lemma piece_eta (p : piece) : mkPiece (owner p) (pcls p) (location p) = p.
Proof. destruct p; reflexivity. Qed.

Lemma location_set_location (s : state) (j k : nat) (l : option pos) :
  location (piece_of (set_location s j l) k) =
  if (Nat.eqb k j && (j <? List.length (pieces s))%nat)%bool then l
  else location (piece_of s k).
Proof.
  unfold piece_of, set_location; cbn [pieces].
  destruct (Nat.eqb k j) eqn:E; cbn [andb].
  - apply Nat.eqb_eq in E; subst k.
    destruct (j <? List.length (pieces s))%nat eqn:L.
    + apply Nat.ltb_lt in L; rewrite nth_list_set_eq by exact L; reflexivity.
    + apply Nat.ltb_ge in L; rewrite !nth_overflow; auto.
      rewrite length_list_set; exact L.
  - apply Nat.eqb_neq in E; rewrite nth_list_set_neq by auto; reflexivity.
Qed.

Lemma owner_set_location (s : state) (j k : nat) (l : option pos) :
  owner (piece_of (set_location s j l) k) = owner (piece_of s k).
Proof.
  unfold piece_of, set_location; cbn [pieces].
  destruct (Nat.eq_dec k j) as [->|E].
  - destruct (Nat.lt_ge_cases j (List.length (pieces s))) as [L|L].
    + rewrite nth_list_set_eq by exact L; reflexivity.
    + rewrite !nth_overflow; auto. rewrite length_list_set; exact L.
  - rewrite nth_list_set_neq by auto; reflexivity.
Qed.

Lemma located_set_some (s : state) (l : list nat) (j : nat) (q : pos) :
  located s l = true -> located (set_location s j (Some q)) l = true.
Proof.
  unfold located; rewrite !forallb_forall; intros H k Hk.
  rewrite location_set_location.
  destruct (_ && _)%bool; [reflexivity | apply H, Hk].
Qed.

Lemma located_set_none (s : state) (l : list nat) (j : nat) :
  ~ In j l -> located s l = true -> located (set_location s j None) l = true.
Proof.
  unfold located; rewrite !forallb_forall; intros Hj H k Hk.
  rewrite location_set_location.
  destruct (Nat.eqb k j) eqn:E; cbn [andb].
  - apply Nat.eqb_eq in E; subst; contradiction.
  - apply H, Hk.
Qed.

Lemma located_incl (s : state) (l l' : list nat) :
  incl l' l -> located s l = true -> located s l' = true.
Proof.
  unfold located; rewrite !forallb_forall; intros Hi H k Hk; apply H, Hi, Hk.
Qed.

Lemma piece_of_set_board (s : state) (b : board) (k : nat) :
  piece_of (set_board s b) k = piece_of s k.
Proof. reflexivity. Qed.
Lemma piece_of_set_red (s : state) (l : list nat) (k : nat) :
  piece_of (set_red s l) k = piece_of s k.
Proof. reflexivity. Qed.
Lemma piece_of_set_blue (s : state) (l : list nat) (k : nat) :
  piece_of (set_blue s l) k = piece_of s k.
Proof. reflexivity. Qed.
Lemma located_set_board (s : state) (b : board) (l : list nat) :
  located (set_board s b) l = located s l.
Proof. reflexivity. Qed.
Lemma located_set_red (s : state) (r l : list nat) :
  located (set_red s r) l = located s l.
Proof. reflexivity. Qed.
Lemma located_set_blue (s : state) (r l : list nat) :
  located (set_blue s r) l = located s l.
Proof. reflexivity. Qed.

Lemma pieces_set_location (s : state) (j : nat) (l : option pos) :
  pieces (set_location s j l) =
  list_set (pieces s) j (mkPiece (owner (piece_of s j)) (pcls (piece_of s j)) l).
Proof. reflexivity. Qed.
Lemma pieces_set_board (s : state) (b : board) : pieces (set_board s b) = pieces s.
Proof. reflexivity. Qed.
Lemma pieces_set_red (s : state) (l : list nat) : pieces (set_red s l) = pieces s.
Proof. reflexivity. Qed.
Lemma pieces_set_blue (s : state) (l : list nat) : pieces (set_blue s l) = pieces s.
Proof. reflexivity. Qed.

Lemma pcls_set_location (s : state) (j k : nat) (l : option pos) :
  pcls (piece_of (set_location s j l) k) = pcls (piece_of s k).
Proof.
  unfold piece_of, set_location; cbn [pieces].
  destruct (Nat.eq_dec k j) as [->|E].
  - destruct (Nat.lt_ge_cases j (List.length (pieces s))) as [L|L].
    + rewrite nth_list_set_eq by exact L; reflexivity.
    + rewrite !nth_overflow; auto. rewrite length_list_set; exact L.
  - rewrite nth_list_set_neq by auto; reflexivity.
Qed.

Lemma set_piece_same (s : state) (k : nat) (q : pos) :
  location (piece_of s k) = Some q ->
  list_set (pieces s) k (mkPiece (owner (piece_of s k)) (pcls (piece_of s k)) (Some q)) = pieces s.
Proof.
  intros H; rewrite <- H, piece_eta; unfold piece_of; apply list_set_nth.
Qed.

Ltac shape_tac :=
  cbn [board_of set_board set_location set_red set_blue];
  repeat (apply board_shape_put; [|assumption]); assumption.

Ltac pnorm :=
  repeat first [ rewrite owner_set_location | rewrite pcls_set_location
               | rewrite pieces_set_location | rewrite pieces_set_board
               | rewrite pieces_set_red | rewrite pieces_set_blue | rewrite piece_of_set_board
               | rewrite piece_of_set_red | rewrite piece_of_set_blue ].

Ltac mstep :=
  repeat (first [ rewrite bind_assoc | rewrite bind_ret_l | rewrite bind_get
                | rewrite bind_set_location ]; cbv beta).

Lemma leaves_in_check_restores (st : state) (f t : pos) (i : nat)
  (Hc : consistent st = true) (Hf : on_board f = true) (Ht : on_board t = true)
  (Hne : f <> t) (Hi : cell (board_of st) f = Some i) :
  exists chk st', leaves_in_check f t st = Ret chk st' /\ same_up_to_order st st'.
Proof.
  destruct (consistent_spec st Hc) as [Hs Hcell Hred Hblue Hndr Hndb Hlr Hlb].
  destruct (Hcell f i Hf Hi) as [Hilen [Hiloc Hiside]].
  unfold leaves_in_check.
  rewrite bind_get_board by assumption; cbv beta; rewrite Hi.
  rewrite bind_set_board by assumption; cbv beta.
  rewrite bind_get_board by shape_tac; cbv beta; cbn [board_of set_board].
  rewrite cell_put_neq by auto.
  destruct (cell (board_of st) t) as [o|] eqn:Eo.
  - destruct (Hcell t o Ht Eo) as [Holen [Holoc Hoside]].
    assert (Hoi : o <> i) by (intros ->; rewrite Hiloc in Holoc; injection Holoc; auto).
    mstep.
    rewrite bind_set_board by shape_tac; cbv beta. mstep.
    destruct (owner (piece_of st o)) eqn:Eow.
    + destruct (list_remove_perm o (red_pieces st) Hoside) as [l' [Hrm Hperm]].
      assert (Hnd' : NoDup (o :: l')) by (apply (Permutation_NoDup Hperm); exact Hndr).
      inversion Hnd' as [|? ? Hol' Hndl']; subst.
      rewrite bind_remove_red with (l' := l') by (cbn [red_pieces set_board set_location]; assumption).
      cbv beta; mstep.
      rewrite bind_set_board by shape_tac; cbv beta; mstep.
      pnorm.
      match goal with |- context [bind (is_in_check ?c) ?k ?s] =>
        assert (Hl6 : located s (red_pieces s) = true /\ located s (blue_pieces s) = true) end.
      { cbn [red_pieces blue_pieces set_board set_location set_red].
        split; apply located_set_some; rewrite located_set_board, located_set_red;
          apply located_set_none; rewrite ?located_set_board.
        - exact Hol'.
        - apply (located_incl st (red_pieces st)); [|exact Hlr].
          intros k Hk; apply (Permutation_in k (Permutation_sym Hperm)); right; exact Hk.
        - intros Hb; apply Hblue in Hb; rewrite Hb in Eow; discriminate.
        - exact Hlb. }
      match goal with |- context [bind (is_in_check ?c) ?k ?s] =>
        destruct (is_in_check_ok c s) as [chk Hchk];
        [ destruct (other c); cbn [side_pieces]; tauto
        | rewrite (bind_ret _ _ _ _ _ Hchk) ] end.
      cbv beta; mstep.
      rewrite bind_set_board by shape_tac; cbv beta; mstep.
      rewrite bind_set_board by shape_tac; cbv beta; mstep.
      pnorm; rewrite Eow.
      rewrite bind_put; cbv beta.
      eexists; eexists; split; [reflexivity|].
      unfold same_up_to_order; split; [|split; [|split; [|split; [|split]]]].
      * cbn [board_of set_board set_red set_blue set_location].
        rewrite (put_put (put_cell (board_of st) f None)) by shape_tac.
        rewrite (put_comm (put_cell (board_of st) f None) t f) by (auto; shape_tac).
        rewrite (put_put (board_of st) f) by shape_tac.
        rewrite <- Hi, put_cell_same by exact Hf.
        rewrite put_put by shape_tac.
        rewrite <- Eo, put_cell_same by exact Ht; reflexivity.
      * pnorm.
        rewrite list_set_set, list_set_comm by auto.
        rewrite list_set_set, set_piece_same by exact Holoc.
        apply set_piece_same; exact Hiloc.
      * reflexivity.
      * reflexivity.
      * cbn [red_pieces set_board set_red set_blue set_location].
        apply (Permutation_trans (l' := o :: l')); [|apply Permutation_sym; exact Hperm].
        apply Permutation_sym, Permutation_cons_append.
      * reflexivity.
    + destruct (list_remove_perm o (blue_pieces st) Hoside) as [l' [Hrm Hperm]].
      assert (Hnd' : NoDup (o :: l')) by (apply (Permutation_NoDup Hperm); exact Hndb).
      inversion Hnd' as [|? ? Hol' Hndl']; subst.
      rewrite bind_remove_blue with (l' := l')
        by (cbn [red_pieces blue_pieces set_board set_location]; auto;
            intros Hr; apply Hred in Hr; rewrite Hr in Eow; discriminate).
      cbv beta; mstep.
      rewrite bind_set_board by shape_tac; cbv beta; mstep.
      pnorm.
      match goal with |- context [bind (is_in_check ?c) ?k ?s] =>
        assert (Hl6 : located s (red_pieces s) = true /\ located s (blue_pieces s) = true) end.
      { cbn [red_pieces blue_pieces set_board set_location set_blue].
        split; apply located_set_some; rewrite located_set_board, located_set_blue;
          apply located_set_none; rewrite ?located_set_board.
        - intros Hr; apply Hred in Hr; rewrite Hr in Eow; discriminate.
        - exact Hlr.
        - exact Hol'.
        - apply (located_incl st (blue_pieces st)); [|exact Hlb].
          intros k Hk; apply (Permutation_in k (Permutation_sym Hperm)); right; exact Hk. }
      match goal with |- context [bind (is_in_check ?c) ?k ?s] =>
        destruct (is_in_check_ok c s) as [chk Hchk];
        [ destruct (other c); cbn [side_pieces]; tauto
        | rewrite (bind_ret _ _ _ _ _ Hchk) ] end.
      cbv beta; mstep.
      rewrite bind_set_board by shape_tac; cbv beta; mstep.
      rewrite bind_set_board by shape_tac; cbv beta; mstep.
      pnorm; rewrite Eow.
      rewrite bind_put; cbv beta.
      eexists; eexists; split; [reflexivity|].
      unfold same_up_to_order; split; [|split; [|split; [|split; [|split]]]].
      * cbn [board_of set_board set_red set_blue set_location].
        rewrite (put_put (put_cell (board_of st) f None)) by shape_tac.
        rewrite (put_comm (put_cell (board_of st) f None) t f) by (auto; shape_tac).
        rewrite (put_put (board_of st) f) by shape_tac.
        rewrite <- Hi, put_cell_same by exact Hf.
        rewrite put_put by shape_tac.
        rewrite <- Eo, put_cell_same by exact Ht; reflexivity.
      * pnorm.
        rewrite list_set_set, list_set_comm by auto.
        rewrite list_set_set, set_piece_same by exact Holoc.
        apply set_piece_same; exact Hiloc.
      * reflexivity.
      * reflexivity.
      * reflexivity.
      * cbn [blue_pieces set_board set_red set_blue set_location].
        apply (Permutation_trans (l' := o :: l')); [|apply Permutation_sym; exact Hperm].
        apply Permutation_sym, Permutation_cons_append.
  - mstep.
    rewrite bind_set_board by shape_tac; cbv beta; mstep.
    pnorm.
    match goal with |- context [bind (is_in_check ?c) ?k ?s] =>
      destruct (is_in_check_ok c s) as [chk Hchk];
      [ destruct (other c); cbn [side_pieces red_pieces blue_pieces set_board set_location];
        apply located_set_some; assumption
      | rewrite (bind_ret _ _ _ _ _ Hchk) ] end.
    cbv beta; mstep.
    rewrite bind_set_board by shape_tac; cbv beta; mstep.
    rewrite bind_set_board by shape_tac; cbv beta.
    eexists; eexists; split; [reflexivity|].
    unfold same_up_to_order; split; [|split; [|split; [|split; [|split]]]].
    + cbn [board_of set_board set_red set_blue set_location].
      rewrite (put_comm (put_cell (board_of st) f None) t f) by (auto; shape_tac).
      rewrite (put_put (board_of st) f) by shape_tac.
      rewrite <- Hi, put_cell_same by exact Hf.
      rewrite put_put by shape_tac.
      rewrite <- Eo, put_cell_same by exact Ht; reflexivity.
    + pnorm.
      rewrite list_set_set; apply set_piece_same; exact Hiloc.
    + reflexivity.
    + reflexivity.
    + reflexivity.
    + reflexivity.
Qed.

Lemma after_commit_true (f t : pos) (player : color) (s s' : state) (b : bool) :
  (update_board f t ;;;
   opp <- get_opposition ;;
   chk <- is_in_check opp ;;
   if chk then
     opp' <- get_opposition ;;
     mate <- is_check_mate opp' ;;
     if mate then set_game_state player ;;; ret true
     else change_turn ;;; ret true
   else change_turn ;;; ret true) s = Ret b s' -> b = true.
Proof.
  unfold bind, get_opposition, ret, set_game_state, change_turn.
  destruct (update_board f t s) as [[] s1|e s1]; [|discriminate].
  destruct (is_in_check _ s1) as [chk s2|e s2]; [|discriminate].
  destruct chk.
  - destruct (is_check_mate _ s2) as [mate s3|e s3]; [|discriminate].
    destruct mate; cbv beta iota; intros H; injection H; auto.
  - cbv beta iota; intros H; injection H; auto.
Qed.

Lemma tail_false_restores (st st' : state) (i : nat) (player : color) (f t : pos)
  (Hc : consistent st = true) (Hf : on_board f = true)
  (Hi : cell (board_of st) f = Some i) :
  make_move_tail i player f t st = Ret false st' -> same_up_to_order st st'.
Proof.
  destruct (consistent_spec st Hc) as [Hs Hcell _ _ _ _ _ _].
  destruct (Hcell f i Hf Hi) as [_ [Hiloc _]].
  unfold make_move_tail; rewrite bind_get; cbv beta.
  unfold piece_moves; rewrite Hiloc; unfold lift; rewrite bind_ret_l; cbv beta.
  destruct (pos_in t _) eqn:Ein; cbn [negb].
  - apply pos_in_spec, moves_sound in Ein; destruct Ein as [_ [Ht Hne]].
    destruct (leaves_in_check_restores st f t i Hc Hf Ht (not_eq_sym Hne) Hi) as [chk [s1 [Hl Hsame]]].
    rewrite (bind_ret _ _ _ _ _ Hl); cbv beta.
    destruct chk; unfold ret; cbv beta iota; intros H;
      first [ inversion H; subst; exact Hsame
            | apply after_commit_true in H; discriminate ].
  - unfold ret; cbv beta iota; intros H; inversion H; subst.
    unfold same_up_to_order; repeat split; apply Permutation_refl.
Qed.

Lemma same_up_to_order_refl (st : state) : same_up_to_order st st.
Proof. unfold same_up_to_order; repeat split; apply Permutation_refl. Qed.

Lemma bind_exc {A B} (m : M A) (k : A -> M B) (s s' : state) (e : exn) :
  m s = Exc e s' -> bind m k s = Exc e s'.
Proof. unfold bind; intros ->; reflexivity. Qed.

Lemma make_move_false_restores (st st' : state) (m1 m2 : string) (p : pos)
  (Hc : consistent st = true) (Hm1 : to_row_column m1 = inr p) (Hp : on_board p = true) :
  make_move m1 m2 st = Ret false st' -> same_up_to_order st st'.
Proof.
  destruct (consistent_spec st Hc) as [Hs _ _ _ _ _ _ _].
  unfold make_move, lift.
  destruct (to_row_column m2) as [e|q].
  { unfold bind, raise; discriminate. }
  rewrite bind_ret_l, Hm1, bind_ret_l, bind_get; cbv beta.
  assert (Hret : Ret false st = Ret false st' -> same_up_to_order st st')
    by (intros H; inversion H; subst; apply same_up_to_order_refl).
  destruct (gstate_eqb (game_state st) UNFINISHED); cbn [negb]; [|exact Hret].
  rewrite bind_get_board by assumption; cbv beta.
  destruct (cell (board_of st) p) as [i|] eqn:Ei; [|exact Hret].
  destruct (color_eqb _ _); cbn [negb]; [|exact Hret].
  destruct (String.eqb m1 m2).
  - destruct (is_in_check_cases (owner (piece_of st i)) st) as [[chk Hchk]|[e He]].
    + rewrite (bind_ret _ _ _ _ _ Hchk); cbv beta.
      destruct chk; cbn [negb].
      * apply tail_false_restores with (i := i); assumption.
      * unfold bind, change_turn, ret; discriminate.
    + rewrite (bind_exc _ _ _ _ _ He); discriminate.
  - apply tail_false_restores with (i := i); assumption.
Qed.

(** Claim C1 (amended): in a consistent state (every state the game
    reaches from the initial layout), a call [leaves_in_check(from, to)]
    between two distinct board cells, [from] holding a piece, and a call of
    [make_move] whose origin notation names a board cell and that returns
    False, leave the board, every piece's recorded location, the game state
    and the turn as they were, and each side's collection with the same
    members, possibly in another order. *)
Theorem rejection_restores (st : state) (Hc : consistent st = true) :
  (forall f t i, on_board f = true -> on_board t = true -> f <> t ->
     cell (board_of st) f = Some i ->
     exists chk st', leaves_in_check f t st = Ret chk st' /\ same_up_to_order st st') /\
  (forall m1 m2 p st', to_row_column m1 = inr p -> on_board p = true ->
     make_move m1 m2 st = Ret false st' -> same_up_to_order st st').
Proof.
  split.
  - intros f t i Hf Ht Hne Hi; exact (leaves_in_check_restores st f t i Hc Hf Ht Hne Hi).
  - intros m1 m2 p st' Hm1 Hp; exact (make_move_false_restores st st' m1 m2 p Hc Hm1 Hp).
Qed.

Lemma rejection_restores_witness :
  (exists chk st', leaves_in_check (6, 0) (5, 0) new_game = Ret chk st' /\
                   same_up_to_order new_game st') /\
  same_up_to_order new_game new_game.
Proof.
  assert (Hc : consistent new_game = true) by (vm_compute; reflexivity).
  split.
  - apply (proj1 (rejection_restores new_game Hc) (6, 0) (5, 0) 22%nat);
      [reflexivity | reflexivity | discriminate | vm_compute; reflexivity].
  - apply (proj2 (rejection_restores new_game Hc) "c1"%string "e3"%string (0, 2) new_game);
      [vm_compute; reflexivity | reflexivity | vm_compute; reflexivity].
Defined.

(** X1: Every destination that [get_legal_moves] of any piece class generates is
    a board cell other than the piece's own location, which is itself a
    board cell. *)
Theorem legal_moves_on_board (pcs : list piece) (b : board) (opp : list pos)
    (c : cls) (L d : pos) (H : In d (get_legal_moves pcs b opp c L)) :
  on_board L = true /\ on_board d = true /\ d <> L.
Proof.
  exact (moves_sound pcs b opp c L d H).
Qed.

Lemma legal_moves_on_board_witness :
  In (5, 0) (get_legal_moves (pieces new_game) (board_of new_game)
               (get_opposition_positions new_game Blue) BlueSoldier (6, 0)) /\
  on_board (5, 0) = true.
Proof.
  assert (H : In (5, 0) (get_legal_moves (pieces new_game) (board_of new_game)
               (get_opposition_positions new_game Blue) BlueSoldier (6, 0)))
    by (vm_compute; tauto).
  split; [exact H | exact (proj1 (proj2 (legal_moves_on_board _ _ _ _ _ _ H)))].
Defined.

(** * Further properties of the code *)

Lemma forallb_perm {A} (f : A -> bool) (l l' : list A) :
  Permutation l l' -> forallb f l = forallb f l'.
Proof.
  induction 1; simpl; try reflexivity.
  - rewrite IHPermutation; reflexivity.
  - rewrite !andb_assoc, (andb_comm (f y)); reflexivity.
  - congruence.
Qed.

Lemma existsb_perm {A} (f : A -> bool) (l l' : list A) :
  Permutation l l' -> existsb f l = existsb f l'.
Proof.
  induction 1; simpl; try reflexivity.
  - rewrite IHPermutation; reflexivity.
  - rewrite !orb_assoc, (orb_comm (f y)); reflexivity.
  - congruence.
Qed.

Lemma filter_perm {A} (f : A -> bool) (l l' : list A) :
  Permutation l l' -> Permutation (filter f l) (filter f l').
Proof.
  induction 1; simpl.
  - constructor.
  - destruct (f x); [constructor|]; assumption.
  - destruct (f x), (f y); try constructor; apply Permutation_refl.
  - eapply Permutation_trans; eassumption.
Qed.

Lemma NoDup_nodupb (l : list nat) : NoDup l -> nodupb l = true.
Proof.
  induction 1 as [|x l Hx Hl IH]; simpl; [reflexivity|].
  rewrite IH, andb_true_r; apply negb_true_iff, not_true_iff_false.
  intros H; apply existsb_exists in H; destruct H as [y [Hy E]].
  apply Nat.eqb_eq in E; subst; contradiction.
Qed.

Lemma nodupb_perm (l l' : list nat) : Permutation l l' -> nodupb l = nodupb l'.
Proof.
  intros Hp; apply eq_iff_eq_true; split; intros H;
    apply NoDup_nodupb; [apply (Permutation_NoDup Hp) | apply (Permutation_NoDup (Permutation_sym Hp))];
    apply nodupb_NoDup; exact H.
Qed.

Lemma forallb_ext' {A} (f g : A -> bool) (l : list A) :
  (forall x, f x = g x) -> forallb f l = forallb g l.
Proof. intros H; induction l as [|x l IH]; simpl; [reflexivity | rewrite H, IH; reflexivity]. Qed.

(** The invariants depend on the collections only through their members. *)
Lemma well_formed_perm (st st' : state) :
  board_of st' = board_of st -> pieces st' = pieces st ->
  Permutation (red_pieces st') (red_pieces st) ->
  Permutation (blue_pieces st') (blue_pieces st) ->
  well_formed st' = well_formed st.
Proof.
  intros Hb Hp Hr Hbl.
  assert (Hpo : forall i, piece_of st' i = piece_of st i) by (intros; unfold piece_of; rewrite Hp; reflexivity).
  assert (Hside : forall c i, in_side st' c i = in_side st c i)
    by (intros [|] i; unfold in_side; cbn [side_pieces]; apply existsb_perm; assumption).
  assert (E1 : cells_consistent st' = cells_consistent st).
  { unfold cells_consistent; rewrite Hb, Hp; apply forallb_ext'; intros q.
    destruct (cell _ _); [|reflexivity]; rewrite !Hpo, Hside; reflexivity. }
  assert (E2 : owners_consistent st' = owners_consistent st).
  { unfold owners_consistent; rewrite (forallb_perm _ _ _ Hr), (forallb_perm _ _ _ Hbl).
    f_equal; apply forallb_ext'; intros; rewrite Hpo; reflexivity. }
  assert (E3 : forall l, located st' l = located st l)
    by (intros l; unfold located; apply forallb_ext'; intros; rewrite Hpo; reflexivity).
  assert (E4 : placed st' = placed st).
  { unfold placed; rewrite (forallb_perm _ _ _ (Permutation_app Hr Hbl)), Hb.
    apply forallb_ext'; intros; rewrite Hpo; reflexivity. }
  assert (E5 : generals_ok st' = generals_ok st).
  { unfold generals_ok.
    assert (Hf : forall l, filter (is_general st') l = filter (is_general st) l)
      by (intros l; apply filter_ext; intros; unfold is_general; rewrite Hpo; reflexivity).
    rewrite !Hf, (Permutation_length (filter_perm _ _ _ Hr)),
      (Permutation_length (filter_perm _ _ _ Hbl)).
    reflexivity. }
  unfold well_formed, consistent.
  rewrite E1, E2, E3, E3, E4, E5, Hb, (nodupb_perm _ _ Hr), (nodupb_perm _ _ Hbl).
  unfold located; rewrite (forallb_perm _ _ _ Hr), (forallb_perm _ _ _ Hbl).
  reflexivity.
Qed.

Lemma placed_spec (st : state) :
  placed st = true ->
  forall i, In i (red_pieces st ++ blue_pieces st) ->
  exists p, location (piece_of st i) = Some p /\ on_board p = true /\ cell (board_of st) p = Some i.
Proof.
  unfold placed; rewrite forallb_forall; intros H i Hi; specialize (H i Hi).
  destruct (location (piece_of st i)) as [p|]; [|discriminate].
  apply andb_true_iff in H; destruct H as [Hp Hc].
  destruct (cell (board_of st) p) as [j|] eqn:Ec; [|discriminate].
  apply Nat.eqb_eq in Hc; subst; eauto.
Qed.

Lemma well_formed_elim (st : state) :
  well_formed st = true ->
  consistent st = true /\ consistent_facts st /\
  (forall i, In i (red_pieces st ++ blue_pieces st) ->
   exists p, location (piece_of st i) = Some p /\ on_board p = true /\ cell (board_of st) p = Some i) /\
  generals_ok st = true.
Proof.
  unfold well_formed; rewrite !andb_true_iff; intros [[Hc Hp] Hg].
  split; [exact Hc|]; split; [apply consistent_spec; exact Hc|].
  split; [apply placed_spec; exact Hp | exact Hg].
Qed.

Lemma well_formed_intro (st : state) :
  board_shape (board_of st) = true ->
  (forall p i, on_board p = true -> cell (board_of st) p = Some i ->
     (i < List.length (pieces st))%nat /\ location (piece_of st i) = Some p /\
     In i (side_pieces st (owner (piece_of st i)))) ->
  (forall i, In i (red_pieces st) -> owner (piece_of st i) = Red) ->
  (forall i, In i (blue_pieces st) -> owner (piece_of st i) = Blue) ->
  NoDup (red_pieces st) -> NoDup (blue_pieces st) ->
  (forall i, In i (red_pieces st ++ blue_pieces st) ->
   exists p, location (piece_of st i) = Some p /\ on_board p = true /\ cell (board_of st) p = Some i) ->
  generals_ok st = true ->
  well_formed st = true.
Proof.
  intros Hs Hcell Hr Hb Hnr Hnb Hpl Hg.
  assert (Hloc : forall l, incl l (red_pieces st ++ blue_pieces st) -> located st l = true).
  { intros l Hl; unfold located; apply (proj2 (forallb_forall _ _)); intros i Hi.
    destruct (Hpl i (Hl i Hi)) as [p [-> _]]; reflexivity. }
  unfold well_formed, consistent; rewrite Hs, Hg, (NoDup_nodupb _ Hnr), (NoDup_nodupb _ Hnb).
  rewrite !Hloc by (intros x Hx; apply in_or_app; auto).
  assert (Hcc : cells_consistent st = true).
  { unfold cells_consistent; apply (proj2 (forallb_forall _ _)); intros p Hp.
    destruct (cell (board_of st) p) as [i|] eqn:Ei; [|reflexivity].
    assert (Hpb : on_board p = true).
    { unfold cell in Ei; destruct (on_board p); [reflexivity | discriminate]. }
    destruct (Hcell p i Hpb Ei) as [Hi [Hl Hside]].
    rewrite Hl; cbn [opt_pos_eqb]; rewrite pos_eqb_refl, (proj2 (in_side_spec _ _ _) Hside).
    apply Nat.ltb_lt in Hi; rewrite Hi; reflexivity. }
  assert (Hoc : owners_consistent st = true).
  { unfold owners_consistent; apply andb_true_iff; split; apply (proj2 (forallb_forall _ _)); intros i Hi.
    - rewrite (Hr i Hi); reflexivity.
    - rewrite (Hb i Hi); reflexivity. }
  rewrite Hcc, Hoc; cbn [andb]; rewrite ?andb_true_r.
  unfold placed; apply (proj2 (forallb_forall _ _)); intros i Hi.
  destruct (Hpl i Hi) as [p [-> [Hp Hc]]]; rewrite Hp, Hc; apply Nat.eqb_refl.
Qed.

Lemma same_up_to_order_trans (s1 s2 s3 : state) :
  same_up_to_order s1 s2 -> same_up_to_order s2 s3 -> same_up_to_order s1 s3.
Proof.
  unfold same_up_to_order; intros [H1 [H2 [H3 [H4 [H5 H6]]]]] [K1 [K2 [K3 [K4 [K5 K6]]]]].
  repeat split; try congruence; eapply Permutation_trans; eassumption.
Qed.

Lemma well_formed_same (st st' : state) :
  same_up_to_order st st' -> well_formed st' = well_formed st.
Proof.
  intros [H1 [H2 [_ [_ [H5 H6]]]]]; apply well_formed_perm; assumption.
Qed.

Lemma piece_of_same (st st' : state) (i : nat) :
  same_up_to_order st st' -> piece_of st' i = piece_of st i.
Proof. intros [_ [H _]]; unfold piece_of; rewrite H; reflexivity. Qed.

Lemma escapes_restores (i : nat) (from : pos) (moves : list pos) :
  forall st, well_formed st = true ->
  location (piece_of st i) = Some from -> on_board from = true ->
  cell (board_of st) from = Some i ->
  (forall d, In d moves -> on_board d = true /\ d <> from) ->
  exists b st', escapes i moves st = Ret b st' /\ same_up_to_order st st'.
Proof.
  induction moves as [|d moves IH]; intros st Hw Hl Hf Hc Hm.
  - exists false, st; split; [reflexivity | apply same_up_to_order_refl].
  - cbn [escapes]; rewrite bind_get; cbv beta; rewrite Hl.
    destruct (Hm d (or_introl eq_refl)) as [Hd Hne].
    destruct (well_formed_elim st Hw) as [Hcons _].
    destruct (leaves_in_check_restores st from d i Hcons Hf Hd (not_eq_sym Hne) Hc)
      as [chk [s1 [Hlic Hs1]]].
    rewrite (bind_ret _ _ _ _ _ Hlic); cbv beta.
    destruct chk; cbn [negb].
    + destruct (IH s1) as [b [s2 [He Hs2]]].
      * rewrite (well_formed_same st s1 Hs1); exact Hw.
      * rewrite (piece_of_same st s1 i Hs1); exact Hl.
      * exact Hf.
      * destruct Hs1 as [Hb _]; rewrite Hb; exact Hc.
      * intros d' Hd'; apply Hm; right; exact Hd'.
      * exists b, s2; split; [exact He | eapply same_up_to_order_trans; eassumption].
    + exists true, s1; split; [reflexivity | exact Hs1].
Qed.

Lemma check_mate_loop_restores (player : color) (fuel : nat) :
  forall k st, well_formed st = true ->
  exists b st', check_mate_loop fuel player k st = Ret b st' /\ same_up_to_order st st'.
Proof.
  induction fuel as [|fuel IH]; intros k st Hw.
  - exists true, st; split; [reflexivity | apply same_up_to_order_refl].
  - cbn [check_mate_loop]; rewrite bind_get; cbv beta.
    destruct (nth_error (side_pieces st player) k) as [i|] eqn:Ek.
    2: { exists true, st; split; [reflexivity | apply same_up_to_order_refl]. }
    apply nth_error_In in Ek.
    destruct (well_formed_elim st Hw) as [_ [_ [Hpl _]]].
    destruct (Hpl i) as [L [HL [HLb HLc]]].
    { apply in_or_app; destruct player; [left | right]; exact Ek. }
    unfold piece_moves; rewrite HL; unfold lift; rewrite bind_ret_l; cbv beta.
    destruct (escapes_restores i L (get_legal_moves (pieces st) (board_of st)
                (get_opposition_positions st player) (pcls (piece_of st i)) L)
                st Hw HL HLb HLc) as [b [s1 [He Hs1]]].
    { intros d Hd; apply moves_sound in Hd; destruct Hd as [_ [Hd Hne]]; auto. }
    rewrite (bind_ret _ _ _ _ _ He); cbv beta.
    destruct b.
    + exists false, s1; split; [reflexivity | exact Hs1].
    + destruct (IH (S k) s1) as [b [s2 [H2 Hs2]]].
      * rewrite (well_formed_same st s1 Hs1); exact Hw.
      * exists b, s2; split; [exact H2 | eapply same_up_to_order_trans; eassumption].
Qed.

Lemma is_check_mate_restores (player : color) (st : state) :
  well_formed st = true ->
  exists b st', is_check_mate player st = Ret b st' /\ same_up_to_order st st'.
Proof. intros Hw; unfold is_check_mate; apply check_mate_loop_restores; exact Hw. Qed.

(** A move of the piece [i] from [f] to [t] keeps the invariants, whatever
    the cell [t] held. *)
Lemma well_formed_move (st st' : state) (f t : pos) (i : nat)
  (Hw : well_formed st = true) (Hf : on_board f = true) (Ht : on_board t = true)
  (Hne : f <> t) (Hi : cell (board_of st) f = Some i)
  (Hb' : board_of st' = put_cell (put_cell (board_of st) f None) t (Some i))
  (Hlen : List.length (pieces st') = List.length (pieces st))
  (Hown : forall j, owner (piece_of st' j) = owner (piece_of st j))
  (Hcls : forall j, pcls (piece_of st' j) = pcls (piece_of st j))
  (Hli : location (piece_of st' i) = Some t)
  (Hlj : forall j, j <> i -> cell (board_of st) t <> Some j ->
         location (piece_of st' j) = location (piece_of st j))
  (Hred : forall j, In j (red_pieces st') <-> In j (red_pieces st) /\ cell (board_of st) t <> Some j)
  (Hblue : forall j, In j (blue_pieces st') <-> In j (blue_pieces st) /\ cell (board_of st) t <> Some j)
  (Hndr : NoDup (red_pieces st')) (Hndb : NoDup (blue_pieces st')) :
  well_formed st' = true.
Proof.
  destruct (well_formed_elim st Hw) as [_ [[Hs Hcell Hr Hb _ _ _ _] [Hpl Hg]]].
  destruct (Hcell f i Hf Hi) as [Hilen [Hiloc Hiside]].
  assert (Hti : cell (board_of st) t <> Some i).
  { intros E; destruct (Hcell t i Ht E) as [_ [E2 _]]; rewrite Hiloc in E2.
    injection E2; auto. }
  assert (Hs1 : board_shape (put_cell (board_of st) f None) = true) by (apply board_shape_put; auto).
  assert (Hside' : forall j, cell (board_of st) t <> Some j ->
            In j (side_pieces st (owner (piece_of st j))) ->
            In j (side_pieces st' (owner (piece_of st' j)))).
  { intros j Hj Hin; rewrite Hown; destruct (owner (piece_of st j)); cbn [side_pieces] in *.
    - apply Hred; auto.
    - apply Hblue; auto. }
  apply well_formed_intro.
  - rewrite Hb'; apply board_shape_put; auto.
  - intros p j Hp Hc; rewrite Hb' in Hc.
    destruct (pos_eqb_spec p t) as [_ _]; destruct (pos_eqb p t) eqn:Ept.
    + apply pos_eqb_spec in Ept; subst p.
      rewrite cell_put_eq in Hc by auto; injection Hc as <-.
      rewrite Hlen; split; [exact Hilen | split; [exact Hli | apply Hside'; auto]].
    + assert (Hpt : p <> t) by (intros ->; rewrite pos_eqb_refl in Ept; discriminate).
      rewrite cell_put_neq in Hc by auto.
      destruct (pos_eqb p f) eqn:Epf.
      * apply pos_eqb_spec in Epf; subst p; rewrite cell_put_eq in Hc by auto; discriminate.
      * assert (Hpf : p <> f) by (intros ->; rewrite pos_eqb_refl in Epf; discriminate).
        rewrite cell_put_neq in Hc by auto.
        destruct (Hcell p j Hp Hc) as [Hjlen [Hjloc Hjside]].
        assert (Hji : j <> i) by (intros ->; rewrite Hiloc in Hjloc; injection Hjloc; auto).
        assert (Htj : cell (board_of st) t <> Some j).
        { intros E; destruct (Hcell t j Ht E) as [_ [E2 _]]; rewrite Hjloc in E2.
          injection E2; auto. }
        rewrite Hlen, Hlj by auto.
        split; [exact Hjlen | split; [exact Hjloc | apply Hside'; auto]].
  - intros j Hj; rewrite Hown; apply Hred in Hj; apply Hr; tauto.
  - intros j Hj; rewrite Hown; apply Hblue in Hj; apply Hb; tauto.
  - exact Hndr.
  - exact Hndb.
  - intros j Hj.
    assert (Hj' : In j (red_pieces st ++ blue_pieces st) /\ cell (board_of st) t <> Some j).
    { apply in_app_or in Hj; destruct Hj as [Hj|Hj];
        [apply Hred in Hj | apply Hblue in Hj]; destruct Hj; split; auto;
        apply in_or_app; auto. }
    destruct Hj' as [Hjin Htj].
    destruct (Nat.eq_dec j i) as [->|Hji].
    + exists t; split; [exact Hli | split; [exact Ht|]].
      rewrite Hb', cell_put_eq by auto; reflexivity.
    + destruct (Hpl j Hjin) as [p [Hjloc [Hp Hc]]].
      exists p; rewrite Hlj by auto; split; [exact Hjloc | split; [exact Hp|]].
      assert (Hpt : p <> t) by (intros ->; contradiction).
      assert (Hpf : p <> f) by (intros ->; rewrite Hi in Hc; injection Hc; auto).
      rewrite Hb', cell_put_neq, cell_put_neq by auto; exact Hc.
  - unfold generals_ok in *; apply andb_true_iff in Hg; destruct Hg as [Hgr Hgb].
    apply Nat.leb_le in Hgr; apply Nat.leb_le in Hgb.
    assert (Hig : forall l, filter (is_general st') l = filter (is_general st) l)
      by (intros l; apply filter_ext; intros; unfold is_general; rewrite Hcls; reflexivity).
    rewrite !Hig; apply andb_true_iff; split; apply Nat.leb_le.
    + etransitivity; [|exact Hgr]; apply NoDup_incl_length; [apply NoDup_filter; exact Hndr|].
      intros x Hx; apply filter_In in Hx; apply filter_In; destruct Hx as [Hx Hg]; split; [|exact Hg].
      apply Hred in Hx; tauto.
    + etransitivity; [|exact Hgb]; apply NoDup_incl_length; [apply NoDup_filter; exact Hndb|].
      intros x Hx; apply filter_In in Hx; apply filter_In; destruct Hx as [Hx Hg]; split; [|exact Hg].
      apply Hblue in Hx; tauto.
Qed.

Lemma update_board_spec (st : state) (f t : pos) (i : nat)
  (Hw : well_formed st = true) (Hf : on_board f = true) (Ht : on_board t = true)
  (Hne : f <> t) (Hi : cell (board_of st) f = Some i) :
  exists st', update_board f t st = Ret tt st' /\
    well_formed st' = true /\
    board_of st' = put_cell (put_cell (board_of st) f None) t (Some i) /\
    pieces st' = pieces (set_location
                           (match cell (board_of st) t with
                            | Some o => set_location st o None
                            | None => st
                            end) i (Some t)) /\
    (forall j, In j (red_pieces st') <-> In j (red_pieces st) /\ cell (board_of st) t <> Some j) /\
    (forall j, In j (blue_pieces st') <-> In j (blue_pieces st) /\ cell (board_of st) t <> Some j) /\
    game_state st' = game_state st /\ current_turn st' = current_turn st.
Proof.
  destruct (well_formed_elim st Hw) as [Hc [[Hs Hcell Hred Hblue Hndr Hndb Hlr Hlb] _]].
  destruct (Hcell f i Hf Hi) as [Hilen [Hiloc Hiside]].
  unfold update_board.
  rewrite bind_get_board by assumption; cbv beta; rewrite Hi.
  rewrite bind_set_board by assumption; cbv beta.
  rewrite bind_get_board by shape_tac; cbv beta; cbn [board_of set_board].
  rewrite cell_put_neq by auto.
  destruct (cell (board_of st) t) as [o|] eqn:Eo.
  - destruct (Hcell t o Ht Eo) as [Holen [Holoc Hoside]].
    assert (Hoi : o <> i) by (intros ->; rewrite Hiloc in Holoc; injection Holoc; auto).
    mstep.
    rewrite bind_set_board by shape_tac; cbv beta. mstep.
    destruct (owner (piece_of st o)) eqn:Eow.
    + destruct (list_remove_perm o (red_pieces st) Hoside) as [l' [Hrm Hperm]].
      assert (Hnd' : NoDup (o :: l')) by (apply (Permutation_NoDup Hperm); exact Hndr).
      inversion Hnd' as [|? ? Hol' Hndl']; subst.
      rewrite bind_remove_red with (l' := l') by (cbn [red_pieces set_board set_location]; assumption).
      cbv beta; mstep.
      rewrite bind_set_board by shape_tac; cbv beta.
      eexists; split; [reflexivity|].
      assert (Hmem : forall j, In j l' <-> In j (red_pieces st) /\ Some o <> Some j).
      { intros j; split.
        - intros Hj; split; [apply (Permutation_in j (Permutation_sym Hperm)); right; exact Hj|].
          intros E; injection E as <-; contradiction.
        - intros [Hj Hoj]; apply (Permutation_in j Hperm) in Hj; destruct Hj as [<-|Hj];
            [contradiction | exact Hj]. }
      assert (Hmemb : forall j, In j (blue_pieces st) <-> In j (blue_pieces st) /\ Some o <> Some j).
      { intros j; split; [|tauto]; intros Hj; split; [exact Hj|].
        intros E; injection E as <-; apply Hblue in Hj; congruence. }
      match goal with |- well_formed ?s = true /\ _ =>
        assert (Hb' : board_of s = put_cell (put_cell (board_of st) f None) t (Some i)) end.
      { cbn [board_of set_board set_red set_location].
        rewrite put_put by shape_tac; reflexivity. }
      split; [|split; [exact Hb' | split; [reflexivity | split; [|split; [|split; reflexivity]]]]].
      * apply (well_formed_move st _ f t i Hw Hf Ht Hne Hi Hb').
        -- cbn [pieces set_board set_red set_location]; rewrite !length_list_set; reflexivity.
        -- intros j; pnorm; reflexivity.
        -- intros j; pnorm; reflexivity.
        -- rewrite location_set_location, Nat.eqb_refl; pnorm.
           cbn [pieces set_board set_red set_location]; rewrite length_list_set.
           apply Nat.ltb_lt in Hilen; rewrite Hilen; reflexivity.
        -- intros j Hji Hjo; rewrite Eo in Hjo.
           rewrite location_set_location; apply Nat.eqb_neq in Hji; rewrite Hji; cbn [andb].
           rewrite ?piece_of_set_board, ?piece_of_set_red, ?piece_of_set_board.
           rewrite location_set_location.
           assert (Hjo' : j <> o) by congruence; apply Nat.eqb_neq in Hjo'; rewrite Hjo'; reflexivity.
        -- intros j; rewrite ?Eo; exact (Hmem j).
        -- intros j; rewrite ?Eo; exact (Hmemb j).
        -- exact Hndl'.
        -- exact Hndb.
      * intros j; rewrite ?Eo; exact (Hmem j).
      * intros j; rewrite ?Eo; exact (Hmemb j).
    + destruct (list_remove_perm o (blue_pieces st) Hoside) as [l' [Hrm Hperm]].
      assert (Hnd' : NoDup (o :: l')) by (apply (Permutation_NoDup Hperm); exact Hndb).
      inversion Hnd' as [|? ? Hol' Hndl']; subst.
      rewrite bind_remove_blue with (l' := l')
        by (cbn [red_pieces blue_pieces set_board set_location]; auto;
            intros Hr; apply Hred in Hr; rewrite Hr in Eow; discriminate).
      cbv beta; mstep.
      rewrite bind_set_board by shape_tac; cbv beta.
      eexists; split; [reflexivity|].
      assert (Hmem : forall j, In j l' <-> In j (blue_pieces st) /\ Some o <> Some j).
      { intros j; split.
        - intros Hj; split; [apply (Permutation_in j (Permutation_sym Hperm)); right; exact Hj|].
          intros E; injection E as <-; contradiction.
        - intros [Hj Hoj]; apply (Permutation_in j Hperm) in Hj; destruct Hj as [<-|Hj];
            [contradiction | exact Hj]. }
      assert (Hmemr : forall j, In j (red_pieces st) <-> In j (red_pieces st) /\ Some o <> Some j).
      { intros j; split; [|tauto]; intros Hj; split; [exact Hj|].
        intros E; injection E as <-; apply Hred in Hj; congruence. }
      match goal with |- well_formed ?s = true /\ _ =>
        assert (Hb' : board_of s = put_cell (put_cell (board_of st) f None) t (Some i)) end.
      { cbn [board_of set_board set_blue set_location].
        rewrite put_put by shape_tac; reflexivity. }
      split; [|split; [exact Hb' | split; [reflexivity | split; [|split; [|split; reflexivity]]]]].
      * apply (well_formed_move st _ f t i Hw Hf Ht Hne Hi Hb').
        -- cbn [pieces set_board set_blue set_location]; rewrite !length_list_set; reflexivity.
        -- intros j; pnorm; reflexivity.
        -- intros j; pnorm; reflexivity.
        -- rewrite location_set_location, Nat.eqb_refl; pnorm.
           cbn [pieces set_board set_blue set_location]; rewrite length_list_set.
           apply Nat.ltb_lt in Hilen; rewrite Hilen; reflexivity.
        -- intros j Hji Hjo; rewrite Eo in Hjo.
           rewrite location_set_location; apply Nat.eqb_neq in Hji; rewrite Hji; cbn [andb].
           rewrite ?piece_of_set_board, ?piece_of_set_blue, ?piece_of_set_board.
           rewrite location_set_location.
           assert (Hjo' : j <> o) by congruence; apply Nat.eqb_neq in Hjo'; rewrite Hjo'; reflexivity.
        -- intros j; rewrite ?Eo; exact (Hmemr j).
        -- intros j; rewrite ?Eo; exact (Hmem j).
        -- exact Hndr.
        -- exact Hndl'.
      * intros j; rewrite ?Eo; exact (Hmemr j).
      * intros j; rewrite ?Eo; exact (Hmem j).
  - rewrite bind_ret_l; cbv beta.
    rewrite bind_set_board by shape_tac; cbv beta.
    eexists; split; [reflexivity|].
    match goal with |- well_formed ?s = true /\ _ =>
      assert (Hb' : board_of s = put_cell (put_cell (board_of st) f None) t (Some i)) end.
    { reflexivity. }
    assert (Hmem : forall (l : list nat) j, In j l <-> In j l /\ None <> Some j)
      by (intros l j; split; [intros H; split; [exact H | discriminate] | tauto]).
    split; [|split; [exact Hb' | split; [reflexivity | split; [|split; [|split; reflexivity]]]]].
    + apply (well_formed_move st _ f t i Hw Hf Ht Hne Hi Hb').
      * cbn [pieces set_board set_location]; rewrite !length_list_set; reflexivity.
      * intros j; pnorm; reflexivity.
      * intros j; pnorm; reflexivity.
      * rewrite location_set_location, Nat.eqb_refl; pnorm.
        cbn [pieces set_board set_location].
        apply Nat.ltb_lt in Hilen; rewrite Hilen; reflexivity.
      * intros j Hji _.
        rewrite location_set_location; apply Nat.eqb_neq in Hji; rewrite Hji; reflexivity.
      * intros j; rewrite ?Eo; apply Hmem.
      * intros j; rewrite ?Eo; apply Hmem.
      * exact Hndr.
      * exact Hndb.
    + intros j; apply Hmem.
    + intros j; apply Hmem.
Qed.

(** The move generators use the opposition list only through [pos_in]. *)
Section OppExt.
Variables opp opp' : list pos.
Hypothesis Hopp : forall x, pos_in x opp = pos_in x opp'.

Lemma chariot_go_ext (b : board) (L : pos) (fuel : nat) :
  forall cur dir, chariot_go b opp L fuel cur dir = chariot_go b opp' L fuel cur dir.
Proof.
  induction fuel as [|fuel IH]; intros [r c] dir; [reflexivity|].
  cbn [chariot_go]; rewrite !Hopp.
  destruct dir as [[dr dc]|];
  repeat match goal with |- context [if ?x then _ else _] => destruct x end;
  rewrite ?IH; reflexivity.
Qed.

Lemma cannon_go_ext (b : board) (L : pos) (fuel : nat) :
  forall positions count cur dir,
  cannon_go b opp L fuel positions count cur dir =
  cannon_go b opp' L fuel positions count cur dir.
Proof.
  induction fuel as [|fuel IH]; intros positions count [r c] dir; [reflexivity|].
  cbn [cannon_go]; destruct (cannon_next (r, c) dir) as [[n dr] dc].
  rewrite !Hopp, !IH; reflexivity.
Qed.

Lemma get_legal_moves_ext (pcs : list piece) (b : board) (c : cls) (L : pos) :
  get_legal_moves pcs b opp c L = get_legal_moves pcs b opp' c L.
Proof.
  destruct L as [r co]; destruct c; cbn [get_legal_moves].
  1-4: unfold palace_moves, palace_step; rewrite !Hopp; reflexivity.
  - unfold horse_moves, horse_mid, horse_final; rewrite !Hopp; reflexivity.
  - unfold elephant_moves, elephant_first, elephant_second, elephant_final; rewrite !Hopp; reflexivity.
  - unfold chariot_moves; apply chariot_go_ext.
  - unfold cannon_moves; apply cannon_go_ext.
  - unfold red_soldier_moves, soldier_step; rewrite !Hopp; reflexivity.
  - unfold blue_soldier_moves, soldier_step; rewrite !Hopp; reflexivity.
Qed.
End OppExt.

Lemma general_position_last (st : state) (l : list nat) :
  general_position st l =
  match rev (filter (is_general st) l) with [] => None | g :: _ => location (piece_of st g) end.
Proof.
  unfold general_position.
  assert (H : forall acc, fold_left (fun acc i =>
               if String.eqb (get_type (pcls (piece_of st i))) "General"
               then location (piece_of st i) else acc) l acc =
          match rev (filter (is_general st) l) with [] => acc | g :: _ => location (piece_of st g) end).
  { induction l as [|x l IH]; intros acc; [reflexivity|].
    cbn [fold_left filter]; rewrite IH; unfold is_general at 2.
    destruct (String.eqb (get_type (pcls (piece_of st x))) "General") eqn:E; cbn [rev];
      destruct (rev (filter (is_general st) l)); reflexivity. }
  apply H.
Qed.

Lemma perm_short {A} (l l' : list A) :
  Permutation l l' -> (List.length l <= 1)%nat -> l = l'.
Proof.
  intros Hp Hl; destruct l as [|x [|y l]].
  - symmetry; apply Permutation_nil; exact Hp.
  - symmetry; apply Permutation_length_1_inv; exact Hp.
  - simpl in Hl; lia.
Qed.

Lemma general_position_perm (st st' : state) (l l' : list nat) :
  pieces st' = pieces st -> Permutation l' l ->
  (List.length (filter (is_general st) l) <= 1)%nat ->
  general_position st' l' = general_position st l.
Proof.
  intros Hp Hperm Hlen; rewrite !general_position_last.
  assert (Hg : forall i, is_general st' i = is_general st i)
    by (intros i; unfold is_general, piece_of; rewrite Hp; reflexivity).
  rewrite (filter_ext _ _ Hg).
  rewrite (perm_short _ _ (Permutation_sym (filter_perm (is_general st) _ _ Hperm)) Hlen).
  unfold piece_of; rewrite Hp; reflexivity.
Qed.

Lemma opposition_perm (st st' : state) (c : color) (x : pos) :
  pieces st' = pieces st ->
  Permutation (side_pieces st' (other c)) (side_pieces st (other c)) ->
  pos_in x (get_opposition_positions st' c) = pos_in x (get_opposition_positions st c).
Proof.
  intros Hp Hperm; unfold pos_in, get_opposition_positions.
  apply existsb_perm.
  assert (Hf : forall i, (match location (piece_of st' i) with Some p => [p] | None => [] end) =
                         (match location (piece_of st i) with Some p => [p] | None => [] end))
    by (intros i; unfold piece_of; rewrite Hp; reflexivity).
  rewrite (flat_map_ext _ _ Hf).
  induction Hperm; simpl; try constructor.
  - apply Permutation_app_head; assumption.
  - rewrite !app_assoc; apply Permutation_app_tail, Permutation_app_comm.
  - eapply Permutation_trans; eassumption.
Qed.

Lemma is_in_check_r_perm (st st' : state) (c : color) :
  well_formed st = true ->
  board_of st' = board_of st -> pieces st' = pieces st ->
  Permutation (red_pieces st') (red_pieces st) ->
  Permutation (blue_pieces st') (blue_pieces st) ->
  is_in_check_r st' c = is_in_check_r st c.
Proof.
  intros Hw Hb Hp Hr Hbl.
  assert (Hw' : well_formed st' = true) by (rewrite (well_formed_perm st st'); assumption).
  assert (Hside : forall d, Permutation (side_pieces st' d) (side_pieces st d))
    by (intros []; assumption).
  assert (Hloc : forall s d, well_formed s = true -> located s (side_pieces s d) = true).
  { intros s d Hs; apply well_formed_elim in Hs; destruct Hs as [Hc _].
    unfold consistent in Hc; rewrite !andb_true_iff in Hc.
    destruct d; simpl; tauto. }
  assert (Hgen : forall d, (List.length (filter (is_general st) (side_pieces st d)) <= 1)%nat).
  { apply well_formed_elim in Hw; destruct Hw as [_ [_ [_ Hg]]].
    unfold generals_ok in Hg; rewrite andb_true_iff, !Nat.leb_le in Hg.
    intros []; simpl; tauto. }
  unfold is_in_check_r.
  rewrite (general_position_perm st st' _ _ Hp (Hside c) (Hgen c)).
  rewrite (union_moves_located st' _ _ (Hloc st' _ Hw')),
          (union_moves_located st _ _ (Hloc st _ Hw)).
  destruct (general_position st (side_pieces st c)) as [g|]; [|reflexivity].
  f_equal; unfold pos_in; apply existsb_perm.
  assert (Hf : forall q, (match location (piece_of st' q) with
                | Some Lq => get_legal_moves (pieces st') (board_of st')
                               (get_opposition_positions st' (other c)) (pcls (piece_of st' q)) Lq
                | None => [] end) =
               (match location (piece_of st q) with
                | Some Lq => get_legal_moves (pieces st) (board_of st)
                               (get_opposition_positions st (other c)) (pcls (piece_of st q)) Lq
                | None => [] end)).
  { intros q; assert (Hq : piece_of st' q = piece_of st q) by (unfold piece_of; rewrite Hp; reflexivity).
    rewrite Hq, Hp, Hb; destruct (location (piece_of st q)); [|reflexivity].
    apply get_legal_moves_ext; intros x.
    apply opposition_perm; [exact Hp | apply Hside]. }
  rewrite (flat_map_ext _ _ Hf).
  generalize (Hside (other c)); generalize (side_pieces st' (other c)), (side_pieces st (other c)).
  intros l1 l2 Hperm; induction Hperm; simpl; try constructor.
  - apply Permutation_app_head; assumption.
  - rewrite !app_assoc; apply Permutation_app_tail, Permutation_app_comm.
  - eapply Permutation_trans; eassumption.
Qed.
Lemma leaves_in_check_update (f t : pos) (s S : state) (i : nat) (chk b : bool) (s' : state) :
  get_board_m f s = Ret (Some i) s ->
  update_board f t s = Ret tt S ->
  is_in_check (owner (piece_of S i)) S = Ret chk S ->
  leaves_in_check f t s = Ret b s' -> b = chk.
Proof.
  unfold leaves_in_check, update_board, bind, ret, get, is_in_check, raise, set_location_m, get_board_m,
    set_board_m, remove_piece_m, put.
  intros H1 H2 H3 H4.
  destruct (board_get (board_of s) f) as [e|v]; [discriminate|].
  injection H1 as ->.
  repeat match goal with
  | H : Ret _ _ = Ret _ _ |- _ => injection H; clear H; intros; subst
  | H : context [match ?x with _ => _ end] |- _ =>
      let E := fresh "E" in destruct x eqn:E; try discriminate
  end.
  all: try (injection H2 as H2; subst S); try (injection H3 as H3; subst); try (injection H4 as H4; subst); try congruence.
Qed.

Lemma bind_get_opposition {B} (k : color -> M B) (s : state) :
  bind get_opposition k s = k (other (current_turn s)) s.
Proof. reflexivity. Qed.

Lemma pieces_set_location_congr (s s' : state) (j : nat) (l : option pos) :
  pieces s' = pieces s -> pieces (set_location s' j l) = pieces (set_location s j l).
Proof. intros H; unfold set_location, piece_of; cbn [pieces]; rewrite H; reflexivity. Qed.

Lemma is_in_check_r_same (s s' : state) (c : color) :
  well_formed s = true -> same_up_to_order s s' -> is_in_check_r s' c = is_in_check_r s c.
Proof. intros Hw [H1 [H2 [_ [_ [H5 H6]]]]]; apply is_in_check_r_perm; assumption. Qed.

Lemma well_formed_located (s : state) (c : color) :
  well_formed s = true -> located s (side_pieces s c) = true.
Proof.
  intros Hs; apply well_formed_elim in Hs; destruct Hs as [Hc _].
  unfold consistent in Hc; rewrite !andb_true_iff in Hc.
  destruct c; simpl; tauto.
Qed.


(** The part of [make_move] from the legal-move test on. *)
Lemma make_move_tail_outcome (st : state) (i : nat) (p q : pos)
  (Hw : well_formed st = true) (Hp : on_board p = true) (Hi : cell (board_of st) p = Some i) :
  exists b st', make_move_tail i (owner (piece_of st i)) p q st = Ret b st' /\
    well_formed st' = true /\
    (b = true ->
     is_in_check (owner (piece_of st i)) st' = Ret false st' /\
     board_of st' = put_cell (put_cell (board_of st) p None) q (Some i) /\
     ((game_state st' = game_state st /\ current_turn st' = other (current_turn st)) \/
      (game_state st' = won_by (owner (piece_of st i)) /\ current_turn st' = current_turn st))).
Proof.
  destruct (well_formed_elim st Hw) as [Hc [[Hs Hcell _ _ _ _ _ _] _]].
  destruct (Hcell p i Hp Hi) as [Hilen [Hiloc Hiside]].
  unfold make_move_tail; rewrite bind_get; cbv beta.
  unfold piece_moves; rewrite Hiloc; cbn [lift]; rewrite bind_ret_l; cbv beta.
  set (moves := get_legal_moves _ _ _ _ _).
  destruct (pos_in q moves) eqn:Eq; cbn [negb].
  2: { exists false, st; split; [reflexivity | split; [exact Hw | discriminate]]. }
  assert (Hin : In q moves).
  { unfold pos_in in Eq; apply existsb_exists in Eq; destruct Eq as [x [Hx E]].
    apply pos_eqb_spec in E; subst; exact Hx. }
  destruct (moves_sound _ _ _ _ _ _ Hin) as [_ [Hq Hqp]].
  destruct (leaves_in_check_restores st p q i Hc Hp Hq (not_eq_sym Hqp) Hi) as [lic [s1 [Hlic Hs1]]].
  rewrite (bind_ret _ _ _ _ _ Hlic); cbv beta.
  assert (Hw1 : well_formed s1 = true) by (rewrite (well_formed_same st s1 Hs1); exact Hw).
  destruct lic.
  { exists false, s1; split; [reflexivity | split; [exact Hw1 | discriminate]]. }
  destruct Hs1 as [Eb1 [Ep1 [Eg1 [Et1 [Er1 Ebl1]]]]].
  assert (Hi1 : cell (board_of s1) p = Some i) by (rewrite Eb1; exact Hi).
  destruct (update_board_spec s1 p q i Hw1 Hp Hq (not_eq_sym Hqp) Hi1)
    as [s2 [Hu [Hw2 [Hb2 [Hp2 [Hr2 [Hbl2 [Hg2 Ht2]]]]]]]].
  rewrite (bind_ret _ _ _ _ _ Hu); cbv beta.
  (* the state [leaves_in_check] examined *)
  destruct (update_board_spec st p q i Hw Hp Hq (not_eq_sym Hqp) Hi)
    as [S [HuS [HwS [HbS [HpS [HrS [HblS _]]]]]]].
  assert (HownS : owner (piece_of S i) = owner (piece_of st i)).
  { unfold piece_of at 1; rewrite HpS; fold (piece_of (set_location
      (match cell (board_of st) q with Some o => set_location st o None | None => st end)
      i (Some q)) i).
    rewrite owner_set_location; destruct (cell (board_of st) q);
      [apply owner_set_location | reflexivity]. }
  destruct (is_in_check_ok (owner (piece_of S i)) S (well_formed_located S _ HwS)) as [chkS HchkS].
  assert (HS : chkS = false).
  { symmetry; refine (leaves_in_check_update p q st S i chkS false s1 _ HuS HchkS Hlic).
    unfold get_board_m; rewrite board_get_ok by assumption; rewrite Hi; reflexivity. }
  subst chkS.
  assert (HS2 : same_up_to_order S s2).
  { assert (Hnd : forall s, well_formed s = true -> NoDup (red_pieces s) /\ NoDup (blue_pieces s)).
    { intros s Hs'; destruct (well_formed_elim s Hs') as [_ [[_ _ _ _ Hr Hb _ _] _]]; tauto. }
    destruct (Hnd S HwS) as [HnrS HnbS], (Hnd s2 Hw2) as [Hnr2 Hnb2].
    unfold same_up_to_order; split; [|split; [|split; [|split; [|split]]]].
    - rewrite Hb2, HbS, Eb1; reflexivity.
    - rewrite Hp2, HpS, Eb1.
      destruct (cell (board_of st) q);
        apply pieces_set_location_congr; try apply pieces_set_location_congr; exact Ep1.
    - rewrite Hg2, Eg1; destruct (update_board_spec st p q i Hw Hp Hq (not_eq_sym Hqp) Hi)
        as [S' [HuS' [_ [_ [_ [_ [_ [HgS _]]]]]]]].
      rewrite HuS in HuS'; injection HuS' as <-; symmetry; exact HgS.
    - rewrite Ht2, Et1; destruct (update_board_spec st p q i Hw Hp Hq (not_eq_sym Hqp) Hi)
        as [S' [HuS' [_ [_ [_ [_ [_ [_ HtS]]]]]]]].
      rewrite HuS in HuS'; injection HuS' as <-; symmetry; exact HtS.
    - apply NoDup_Permutation; [exact Hnr2 | exact HnrS|].
      intros j; rewrite Hr2, HrS, Eb1; split; intros [Hj Hj']; split; auto;
        (eapply Permutation_in; [|exact Hj]; auto using Permutation_sym).
    - apply NoDup_Permutation; [exact Hnb2 | exact HnbS|].
      intros j; rewrite Hbl2, HblS, Eb1; split; intros [Hj Hj']; split; auto;
        (eapply Permutation_in; [|exact Hj]; auto using Permutation_sym). }
  assert (Hchk2 : forall s', board_of s' = board_of s2 -> pieces s' = pieces s2 ->
            Permutation (red_pieces s') (red_pieces s2) ->
            Permutation (blue_pieces s') (blue_pieces s2) ->
            is_in_check_r s' (owner (piece_of st i)) = inr false).
  { intros s' E1 E2 E3 E4; rewrite (is_in_check_r_perm s2 s' _ Hw2 E1 E2 E3 E4),
      (is_in_check_r_same S s2 _ HwS HS2), <- HownS.
    unfold is_in_check in HchkS; destruct (is_in_check_r S _); congruence. }
  rewrite bind_get_opposition; cbv beta.
  destruct (is_in_check_ok (other (current_turn s2)) s2 (well_formed_located s2 _ Hw2))
    as [chk2 Hc2].
  rewrite (bind_ret _ _ _ _ _ Hc2); cbv beta.
  assert (Hboard : board_of s2 = put_cell (put_cell (board_of st) p None) q (Some i))
    by (rewrite Hb2, Eb1; reflexivity).
  destruct chk2.
  - rewrite bind_get_opposition; cbv beta.
    destruct (is_check_mate_restores (other (current_turn s2)) s2 Hw2) as [mate [s3 [Hm Hs3]]].
    rewrite (bind_ret _ _ _ _ _ Hm); cbv beta.
    destruct Hs3 as [Eb3 [Ep3 [Eg3 [Et3 [Er3 Ebl3]]]]].
    destruct mate.
    + eexists; eexists; split; [reflexivity|].
      split; [rewrite (well_formed_perm s2); cbn [board_of pieces red_pieces blue_pieces];
              assumption|].
      intros _; split; [|split].
      * unfold is_in_check; rewrite Hchk2; [reflexivity| assumption ..].
      * cbn [board_of]; rewrite Eb3; exact Hboard.
      * right; cbn [game_state current_turn]; split; [reflexivity|congruence].
    + eexists; eexists; split; [reflexivity|].
      split; [rewrite (well_formed_perm s2); cbn [board_of pieces red_pieces blue_pieces];
              assumption|].
      intros _; split; [|split].
      * unfold is_in_check; rewrite Hchk2; [reflexivity| assumption ..].
      * cbn [board_of]; rewrite Eb3; exact Hboard.
      * left; cbn [game_state current_turn]; split; congruence.
  - eexists; eexists; split; [reflexivity|].
    split; [rewrite (well_formed_perm s2); cbn [board_of pieces red_pieces blue_pieces];
            auto using Permutation_refl|].
    intros _; split; [|split].
    * unfold is_in_check; rewrite Hchk2; [reflexivity| auto using Permutation_refl ..].
    * exact Hboard.
    * left; cbn [game_state current_turn]; split; congruence.
Qed.

Lemma union_moves_fields (s s' : state) (opp : list pos) (l : list nat) :
  board_of s' = board_of s -> pieces s' = pieces s ->
  union_moves s' opp l = union_moves s opp l.
Proof.
  intros Hb Hp; induction l as [|x l IH]; [reflexivity|].
  cbn [union_moves]; rewrite IH; unfold piece_moves, piece_of; rewrite Hb, Hp; reflexivity.
Qed.

Lemma is_in_check_r_fields (s s' : state) (c : color) :
  board_of s' = board_of s -> pieces s' = pieces s ->
  red_pieces s' = red_pieces s -> blue_pieces s' = blue_pieces s ->
  is_in_check_r s' c = is_in_check_r s c.
Proof.
  intros Hb Hp Hr Hbl; unfold is_in_check_r.
  rewrite (union_moves_fields s s') by assumption.
  unfold general_position, get_opposition_positions, side_pieces, piece_of.
  rewrite Hp, Hr, Hbl; reflexivity.
Qed.

Lemma make_move_outcome (st : state) (m1 m2 : string) (p q : pos)
  (Hw : well_formed st = true) (H1 : to_row_column m1 = inr p) (Hp : on_board p = true)
  (H2 : to_row_column m2 = inr q) :
  exists b st', make_move m1 m2 st = Ret b st' /\ well_formed st' = true /\
    (b = true ->
     game_state st = UNFINISHED /\
     is_in_check (current_turn st) st' = Ret false st' /\
     ((m1 = m2 /\ st' = pass_turn st) \/
      (exists i, cell (board_of st) p = Some i /\ owner (piece_of st i) = current_turn st /\
         board_of st' = put_cell (put_cell (board_of st) p None) q (Some i) /\
         ((game_state st' = UNFINISHED /\ current_turn st' = other (current_turn st)) \/
          (game_state st' = won_by (current_turn st) /\ current_turn st' = current_turn st))))).
Proof.
  destruct (well_formed_elim st Hw) as [Hc [[Hs _ _ _ _ _ _ _] _]].
  unfold make_move; rewrite H2; cbn [lift]; rewrite bind_ret_l; cbv beta.
  rewrite H1; cbn [lift]; rewrite bind_ret_l; cbv beta.
  rewrite bind_get; cbv beta.
  destruct (gstate_eqb (game_state st) UNFINISHED) eqn:Eg; cbn [negb].
  2: { exists false, st; split; [reflexivity | split; [exact Hw | discriminate]]. }
  assert (Hg : game_state st = UNFINISHED) by (destruct (game_state st); easy).
  rewrite bind_get_board by assumption; cbv beta.
  destruct (cell (board_of st) p) as [i|] eqn:Ei.
  2: { exists false, st; split; [reflexivity | split; [exact Hw | discriminate]]. }
  destruct (color_eqb (owner (piece_of st i)) (current_turn st)) eqn:Eo; cbn [negb].
  2: { exists false, st; split; [reflexivity | split; [exact Hw | discriminate]]. }
  apply color_eqb_spec in Eo.
  assert (Htail : exists b st', make_move_tail i (owner (piece_of st i)) p q st = Ret b st' /\
    well_formed st' = true /\
    (b = true ->
     game_state st = UNFINISHED /\
     is_in_check (current_turn st) st' = Ret false st' /\
     ((m1 = m2 /\ st' = pass_turn st) \/
      (exists j, Some i = Some j /\ owner (piece_of st j) = current_turn st /\
         board_of st' = put_cell (put_cell (board_of st) p None) q (Some j) /\
         ((game_state st' = UNFINISHED /\ current_turn st' = other (current_turn st)) \/
          (game_state st' = won_by (current_turn st) /\ current_turn st' = current_turn st)))))).
  { destruct (make_move_tail_outcome st i p q Hw Hp Ei) as [b [st' [Ht [Hw' Hb]]]].
    exists b, st'; split; [exact Ht | split; [exact Hw'|]].
    intros Hbt; destruct (Hb Hbt) as [Hchk [Hboard Hgs]]; rewrite <- Eo.
    split; [exact Hg | split; [exact Hchk|]].
    right; exists i; split; [reflexivity | split; [reflexivity | split; [exact Hboard|]]].
    rewrite Eo, Hg in Hgs; rewrite Eo; exact Hgs. }
  destruct (String.eqb m1 m2) eqn:Em; [|exact Htail].
  destruct (is_in_check_ok (owner (piece_of st i)) st (well_formed_located st _ Hw)) as [chk Hchk].
  rewrite (bind_ret _ _ _ _ _ Hchk); cbv beta.
  destruct chk; cbn [negb]; [exact Htail|].
  exists true, (pass_turn st); split; [reflexivity|].
  split; [exact Hw|]; intros _.
  split; [exact Hg | split].
  - rewrite <- Eo; unfold is_in_check in *.
    rewrite (is_in_check_r_fields st (pass_turn st)) by reflexivity.
    destruct (is_in_check_r st _); congruence.
  - left; split; [apply String.eqb_eq; exact Em | reflexivity].
Qed.

Lemma make_move_bad_to (st : state) (m1 m2 : string) (e : exn) :
  to_row_column m2 = inl e -> make_move m1 m2 st = Exc e st.
Proof. intros H; unfold make_move, bind, lift, raise; rewrite H; reflexivity. Qed.

Lemma make_move_bad_from (st : state) (m1 m2 : string) (q : pos) (e : exn) :
  to_row_column m2 = inr q -> to_row_column m1 = inl e -> make_move m1 m2 st = Exc e st.
Proof. intros H2 H1; unfold make_move, bind, lift, raise, ret; rewrite H2, H1; reflexivity. Qed.

Lemma play_well_formed_gen (ms : list (string * string)) :
  forall st, well_formed st = true ->
  Forall (fun m => origin_on_board (fst m) = true) ms ->
  well_formed (final_state (play ms st)) = true.
Proof.
  induction ms as [|[f t] ms IH]; intros st Hw Hms; [exact Hw|].
  inversion Hms as [|? ? Hf Hms']; subst; cbn [fst] in Hf.
  rewrite play_cons.
  destruct (to_row_column t) as [e|q] eqn:Ht.
  { rewrite (make_move_bad_to st f t e Ht); exact Hw. }
  destruct (to_row_column f) as [e|p] eqn:Hfp.
  { rewrite (make_move_bad_from st f t q e Ht Hfp); exact Hw. }
  unfold origin_on_board in Hf; rewrite Hfp in Hf.
  destruct (make_move_outcome st f t p q Hw Hfp Hf Ht) as [b [st' [Hm [Hw' _]]]].
  rewrite Hm; specialize (IH st' Hw' Hms').
  destruct (play ms st'); exact IH.
Qed.

Lemma string_length_app (s1 s2 : string) :
  String.length (s1 ++ s2) = (String.length s1 + String.length s2)%nat.
Proof. induction s1 as [|a s1 IH]; cbn; [reflexivity | rewrite IH; reflexivity]. Qed.

Lemma print_cell_length (st : state) (v : option nat) :
  String.length (print_cell st v) = 15%nat.
Proof.
  destruct v as [i|]; [|reflexivity].
  unfold print_cell, get_name; destruct (piece_of st i) as [o c l]; cbn [owner pcls].
  destruct o, c; reflexivity.
Qed.

Lemma print_row_fold (st : state) (row : nat) (cols : list nat) :
  board_shape (board_of st) = true -> (row < 10)%nat -> Forall (fun c => c < 9)%nat cols ->
  forall line, exists line',
  fold_left (fun acc column =>
               match acc with
               | inl e => inl e
               | inr line =>
                 match board_get (board_of st) (Z.of_nat row, Z.of_nat column) with
                 | inl e => inl e
                 | inr v => inr (line ++ print_cell st v)%string
                 end
               end) cols (inr line) = inr line' /\
  String.length line' = (String.length line + 15 * List.length cols)%nat.
Proof.
  intros Hs Hr Hc; induction Hc as [|c cols Hc0 Hcs IH]; intros line.
  - exists line; split; [reflexivity | cbn; lia].
  - cbn [fold_left]; rewrite board_get_ok.
    + destruct (IH (line ++ print_cell st (cell (board_of st) (Z.of_nat row, Z.of_nat c)))%string)
        as [line' [H1 H2]].
      exists line'; split; [exact H1|].
      rewrite H2, string_length_app, print_cell_length; cbn [List.length]; lia.
    + exact Hs.
    + apply on_board_iff; lia.
Qed.

Lemma print_row_ok (st : state) (row : nat) :
  board_shape (board_of st) = true -> (row < 10)%nat ->
  exists line, print_row st row = inr line /\ String.length line = 138%nat.
Proof.
  intros Hs Hr; unfold print_row.
  destruct (print_row_fold st row (seq 0 9) Hs Hr) with
    (line := if (row =? 9)%nat then (str_nat (row + 1) ++ " ")%string
             else (str_nat (row + 1) ++ "  ")%string) as [line [H1 H2]].
  { apply Forall_forall; intros c Hc; apply in_seq in Hc; lia. }
  exists line; split; [exact H1|]; rewrite H2.
  do 10 (destruct row as [|row]; [reflexivity|]); lia.
Qed.

Lemma print_rows_ok (st : state) (rows : list nat) :
  board_shape (board_of st) = true -> Forall (fun r => r < 10)%nat rows ->
  exists ls, print_rows st rows = (ls ++ [EmptyString], None) /\
    List.length ls = List.length rows /\ Forall (fun l => String.length l = 138%nat) ls.
Proof.
  intros Hs Hr; induction Hr as [|r rows Hr0 Hrs IH].
  - exists []; split; [reflexivity | split; [reflexivity | constructor]].
  - cbn [print_rows]; destruct (print_row_ok st r Hs Hr0) as [line [H1 H2]]; rewrite H1.
    destruct IH as [ls [E [L F]]]; rewrite E.
    exists (line :: ls); split; [reflexivity | split; [cbn; lia | constructor; assumption]].
Qed.

Lemma cell_label_all :
  forallb (fun p => match to_row_column (cell_label p) with
                    | inr q => pos_eqb q p | inl _ => false end) board_cells = true.
Proof. vm_compute; reflexivity. Qed.

Lemma cell_label_round_trip (p : pos) :
  on_board p = true -> to_row_column (cell_label p) = inr p.
Proof.
  intros Hp; pose proof cell_label_all as H; rewrite forallb_forall in H.
  specialize (H p (in_board_cells p Hp)).
  destruct (to_row_column (cell_label p)) as [e|q]; [discriminate|].
  apply pos_eqb_spec in H; subst; reflexivity.
Qed.



Ltac cmp_cases H :=
  rewrite ?Z.gtb_ltb in H;
  repeat match type of H with
  | context [?x <? ?y] => let E := fresh "E" in
      destruct (x <? y) eqn:E; [apply Z.ltb_lt in E | apply Z.ltb_ge in E]
  end.

Ltac guard_cases H :=
  repeat match type of H with
  | context [if negb ?x then _ else _] => let E := fresh "E" in
      destruct x eqn:E; cbn [negb] in H; [|destruct H]
  | context [if occupied ?b ?p then _ else _] => let E := fresh "E" in
      destruct (occupied b p) eqn:E; [destruct H|]
  end.

Ltac occ_tac :=
  match goal with
  | H : occupied ?b (?u, ?v) = false |- occupied ?b (?u', ?v') = false =>
      replace u' with u by lia; replace v' with v by lia; exact H
  end.

Ltac shape_fin Hc :=
  split; [unfold orth; lia|]; split; [unfold diag; lia|]; split; [lia|];
  split; [f_equal; lia|]; split; [occ_tac | exact Hc].

Ltac shape_diag Hc :=
  first [ exists 1, 1; shape_fin Hc | exists 1, (-1); shape_fin Hc
        | exists (-1), 1; shape_fin Hc | exists (-1), (-1); shape_fin Hc ].

Ltac shape_search Hc :=
  first [ exists 1, 0; shape_diag Hc | exists (-1), 0; shape_diag Hc
        | exists 0, 1; shape_diag Hc | exists 0, (-1); shape_diag Hc ].

Ltac eshape_fin Hc :=
  split; [unfold orth; lia|]; split; [unfold diag; lia|]; split; [lia|];
  split; [f_equal; lia|]; split; [occ_tac|]; split; [occ_tac | exact Hc].

Ltac eshape_diag Hc :=
  first [ exists 1, 1; eshape_fin Hc | exists 1, (-1); eshape_fin Hc
        | exists (-1), 1; eshape_fin Hc | exists (-1), (-1); eshape_fin Hc ].

Ltac eshape_search Hc :=
  first [ exists 1, 0; eshape_diag Hc | exists (-1), 0; eshape_diag Hc
        | exists 0, 1; eshape_diag Hc | exists 0, (-1); eshape_diag Hc ].

Ltac pal_fin Hc Ed :=
  split; [f_equal; lia|]; split; [|exact Hc];
  first [ left; unfold orth; lia | right; split; [unfold diag; lia | first [exact Ed | reflexivity]] ].

Section Shapes.
Variable b : board.
Variable opp : list pos.

Lemma step_in_cap (test : pos -> bool) (p d : pos) :
  In d (if negb (test p) then [] else if occupied b p && negb (pos_in p opp) then [] else [p]) ->
  d = p /\ test p = true /\ free_or_opposing b opp p.
Proof.
  destruct (test p) eqn:E; cbn [negb]; [|intros []].
  unfold free_or_opposing; destruct (occupied b p), (pos_in p opp); cbn;
    intros H; (destruct H as [H|[]] || destruct H); subst; auto.
Qed.

Lemma horse_shape (L d : pos) :
  In d (horse_moves b opp L) ->
  on_board d = true /\
  exists a c x y, orth a c /\ diag x y /\ a * x + c * y = 1 /\
    d = (fst L + a + x, snd L + c + y) /\
    occupied b (fst L + a, snd L + c) = false /\ free_or_opposing b opp d.
Proof.
  destruct L as [r c]; unfold horse_moves; intros H; cbv beta iota zeta in H; guard_cases H.
  rewrite !in_app_iff in H; cbn [fst snd].
  destruct H as [H|[H|[H|H]]]; unfold horse_mid in H; cbv beta iota zeta in H;
    guard_cases H; cbn [fst snd] in H;
    cmp_cases H; try lia; rewrite in_app_iff in H;
    destruct H as [H|H]; apply (step_in_cap on_board) in H; destruct H as [-> [Hb Hc]];
    (split; [exact Hb|]);
    shape_search Hc.
Qed.

Lemma elephant_shape (L d : pos) :
  In d (elephant_moves b opp L) ->
  on_board d = true /\
  exists a c x y, orth a c /\ diag x y /\ a * x + c * y = 1 /\
    d = (fst L + a + 2 * x, snd L + c + 2 * y) /\
    occupied b (fst L + a, snd L + c) = false /\
    occupied b (fst L + a + x, snd L + c + y) = false /\ free_or_opposing b opp d.
Proof.
  destruct L as [r c]; unfold elephant_moves; intros H; cbv beta iota zeta in H; guard_cases H.
  rewrite !in_app_iff in H; cbn [fst snd].
  destruct H as [H|[H|[H|H]]]; unfold elephant_first in H; cbv beta iota zeta in H;
    guard_cases H; cbn [fst snd] in H;
    cmp_cases H; try lia; rewrite in_app_iff in H;
    destruct H as [H|H]; unfold elephant_second in H; cbv beta iota zeta in H;
    guard_cases H; cbn [fst snd] in H;
    apply (step_in_cap on_board) in H; destruct H as [-> [Hb Hc]];
    (split; [exact Hb|]);
    eshape_search Hc.
Qed.

Lemma palace_shape (inF : pos -> bool) (diagp : list pos) (L d : pos) :
  In d (palace_moves inF diagp b opp L) ->
  inF L = true /\ inF d = true /\
  exists dr dc, d = (fst L + dr, snd L + dc) /\
    (orth dr dc \/ (diag dr dc /\ pos_in L diagp = true)) /\ free_or_opposing b opp d.
Proof.
  destruct L as [r c]; unfold palace_moves; intros H; cbv beta iota zeta in H.
  destruct (inF (r, c)) eqn:EL; cbn [negb] in H; [|destruct H].
  split; [reflexivity|].
  destruct (pos_in (r, c) diagp) eqn:Ed; rewrite ?in_app_iff in H.
  all: repeat match type of H with _ \/ _ => destruct H as [H|H] end.
  all: try (destruct H; fail).
  all: unfold palace_step in H; apply (step_in_cap inF) in H; destruct H as [-> [Hb Hc]].
  all: (split; [exact Hb|]); cbn [fst snd].
  all: first [ exists 1, 0; pal_fin Hc Ed | exists (-1), 0; pal_fin Hc Ed
          | exists 0, 1; pal_fin Hc Ed | exists 0, (-1); pal_fin Hc Ed
          | exists 1, 1; pal_fin Hc Ed | exists 1, (-1); pal_fin Hc Ed
          | exists (-1), 1; pal_fin Hc Ed | exists (-1), (-1); pal_fin Hc Ed ].
Qed.

End Shapes.

Section Shapes2.
Variable b : board.
Variable opp : list pos.

Lemma chariot_ray_shape (L : pos) (fuel : nat) :
  forall k dr dc cur d, (dr <> 0 \/ dc <> 0) -> 1 <= k ->
  cur = (fst L + k * dr, snd L + k * dc) ->
  In d (chariot_go b opp L fuel cur (Some (dr, dc))) ->
  on_board d = true /\ exists j, k <= j /\ d = (fst L + j * dr, snd L + j * dc) /\
    (forall m, k <= m < j -> occupied b (fst L + m * dr, snd L + m * dc) = false) /\
    (dr <> 0 -> dc <> 0 -> forall m, k <= m <= j ->
       in_fortress (fst L + m * dr, snd L + m * dc) = true) /\
    free_or_opposing b opp d.
Proof.
  induction fuel as [|fuel IH]; intros k dr dc cur d Hd Hk -> H; [destruct H|].
  cbn [chariot_go] in H.
  rewrite pos_eqb_sym, (ray_off_origin L k dr dc Hd Hk) in H.
  destruct (on_board (fst L + k * dr, snd L + k * dc)) eqn:Eb;
    cbn [negb andb] in H; [|destruct H].
  destruct (is_diagonal (Some (dr, dc)) && _ && _) eqn:Ediag; [destruct H|].
  assert (Hfk : dr <> 0 -> dc <> 0 -> in_fortress (fst L + k * dr, snd L + k * dc) = true).
  { intros H1 H2; unfold is_diagonal in Ediag.
    apply Z.eqb_neq in H1; apply Z.eqb_neq in H2; rewrite H1, H2 in Ediag; cbn [negb andb] in Ediag.
    unfold in_fortress; destruct (in_red_fortress _), (in_blue_fortress _); easy. }
  unfold free_or_opposing.
  destruct (occupied b _) eqn:Eo, (pos_in _ opp) eqn:Ep; cbn [negb andb] in H;
    repeat match type of H with
    | In _ (_ :: _) => destruct H as [H|H]
    | In _ [] => destruct H
    end;
    try (subst d; split; [exact Eb | exists k; split; [lia | split; [reflexivity|]]];
         split; [intros; lia|]; split; [intros H1 H2 m Hm; replace m with k by lia; auto|];
         auto).
  apply (IH (k + 1) dr dc) in H; [| exact Hd | lia | cbn [fst snd]; f_equal; ring].
  destruct H as [Hb [j [Hj [-> [Hocc [Hfort Hcap]]]]]].
  split; [exact Hb|]; exists j; split; [lia|]; split; [reflexivity|]; split; [|split; [|exact Hcap]].
  - intros m Hm; destruct (Z.eq_dec m k) as [->|Hmk]; [exact Eo | apply Hocc; lia].
  - intros H1 H2 m Hm; destruct (Z.eq_dec m k) as [->|Hmk]; [auto | apply Hfort; auto; lia].
Qed.

Lemma chariot_start_shape (fuel : nat) (L d : pos) :
  In d (chariot_go b opp L (S fuel) L None) ->
  on_board d = true /\
  exists dr dc j, (orth dr dc \/ (diag dr dc /\ pos_in L chariot_diag_points = true /\
                     forall m, 1 <= m <= j ->
                       in_fortress (fst L + m * dr, snd L + m * dc) = true)) /\
    1 <= j /\ d = (fst L + j * dr, snd L + j * dc) /\
    (forall m, 1 <= m < j -> occupied b (fst L + m * dr, snd L + m * dc) = false) /\
    free_or_opposing b opp d.
Proof.
  intros H; cbn [chariot_go] in H.
  destruct L as [r c]; rewrite pos_eqb_refl in H.
  destruct (on_board (r, c)) eqn:Eb; cbn [negb andb is_diagonal] in H; [|destruct H].
  destruct (pos_in (r, c) chariot_diag_points) eqn:Ed; rewrite ?in_app_iff in H;
    repeat match type of H with _ \/ _ => destruct H as [H|H] end;
    try (destruct H; fail);
    match type of H with
    | In _ (chariot_go _ _ _ _ ?cur (Some (?dr, ?dc))) =>
      destruct (chariot_ray_shape (r, c) fuel 1 dr dc cur d) as [Hb [j [Hj [-> [Hocc [Hf Hcap]]]]]];
        [ lia | lia | cbn [fst snd]; f_equal; ring | exact H | ];
      split; [exact Hb|]; exists dr, dc, j;
      split; [ first [ left; unfold orth; lia
                     | right; split; [unfold diag; lia | split; [reflexivity | apply Hf; lia]] ] |];
      split; [exact Hj | split; [reflexivity | split; [exact Hocc | exact Hcap]]]
    end.
Qed.

Lemma chariot_shape (L d : pos) :
  In d (chariot_moves b opp L) ->
  on_board d = true /\
  exists dr dc j, (orth dr dc \/ (diag dr dc /\ pos_in L chariot_diag_points = true /\
                     forall m, 1 <= m <= j ->
                       in_fortress (fst L + m * dr, snd L + m * dc) = true)) /\
    1 <= j /\ d = (fst L + j * dr, snd L + j * dc) /\
    (forall m, 1 <= m < j -> occupied b (fst L + m * dr, snd L + m * dc) = false) /\
    free_or_opposing b opp d.
Proof. apply chariot_start_shape. Qed.
End Shapes2.

Lemma piece_of_set_location_neq (s : state) (i j : nat) (l : option pos) :
  j <> i -> piece_of (set_location s i l) j = piece_of s j.
Proof. intros H; unfold piece_of, set_location; cbn [pieces]; apply nth_list_set_neq; auto. Qed.

(** ** update_board *)

(** X2: [update_board(f, t)] on a well-formed game, for two distinct board
    cells with a piece [i] on [f], never raises: the board gets [i] on [t]
    and [f] empty, [i] records [t], the piece captured on [t] (if any)
    records no location and leaves its collection, every other piece is
    untouched, the game state and the turn are unchanged, and the game
    stays well-formed. *)
Theorem update_board_moves_piece (st : state) (f t : pos) (i : nat)
  (Hw : well_formed st = true) (Hf : on_board f = true) (Ht : on_board t = true)
  (Hne : f <> t) (Hi : cell (board_of st) f = Some i) :
  exists st', update_board f t st = Ret tt st' /\ well_formed st' = true /\
    board_of st' = put_cell (put_cell (board_of st) f None) t (Some i) /\
    location (piece_of st' i) = Some t /\
    (forall o, cell (board_of st) t = Some o -> location (piece_of st' o) = None) /\
    (forall j, j <> i -> cell (board_of st) t <> Some j -> piece_of st' j = piece_of st j) /\
    (forall j, In j (red_pieces st') <-> In j (red_pieces st) /\ cell (board_of st) t <> Some j) /\
    (forall j, In j (blue_pieces st') <-> In j (blue_pieces st) /\ cell (board_of st) t <> Some j) /\
    game_state st' = game_state st /\ current_turn st' = current_turn st.
Proof.
  destruct (update_board_spec st f t i Hw Hf Ht Hne Hi)
    as [st' [Hu [Hw' [Hb [Hp [Hr [Hbl [Hg Htu]]]]]]]].
  destruct (well_formed_elim st Hw) as [_ [[_ Hcell _ _ _ _ _ _] _]].
  destruct (Hcell f i Hf Hi) as [Hilen [Hiloc _]].
  assert (Hpo : forall j, piece_of st' j = piece_of (set_location
             (match cell (board_of st) t with Some o => set_location st o None | None => st end)
             i (Some t)) j) by (intros j; unfold piece_of at 1; rewrite Hp; reflexivity).
  exists st'; split; [exact Hu | split; [exact Hw' | split; [exact Hb | split; [|split; [|split]]]]].
  - rewrite Hpo, location_set_location, Nat.eqb_refl.
    destruct (cell (board_of st) t); cbn [pieces set_location];
      rewrite ?length_list_set; apply Nat.ltb_lt in Hilen; rewrite Hilen; reflexivity.
  - intros o Ho; destruct (Hcell t o Ht Ho) as [Holen [Holoc _]].
    assert (Hoi : o <> i) by (intros ->; rewrite Hiloc in Holoc; injection Holoc; auto).
    rewrite Hpo, piece_of_set_location_neq by exact Hoi; rewrite Ho.
    rewrite location_set_location, Nat.eqb_refl; apply Nat.ltb_lt in Holen; rewrite Holen; reflexivity.
  - intros j Hji Hjt; rewrite Hpo, piece_of_set_location_neq by exact Hji.
    destruct (cell (board_of st) t) as [o|]; [|reflexivity].
    apply piece_of_set_location_neq; congruence.
  - split; [exact Hr | split; [exact Hbl | split; [exact Hg | exact Htu]]].
Qed.

Lemma update_board_moves_piece_witness :
  exists st', update_board (6, 0) (5, 0) new_game = Ret tt st' /\ well_formed st' = true.
Proof.
  destruct (update_board_moves_piece new_game (6, 0) (5, 0) 22
              ltac:(vm_compute; reflexivity) ltac:(vm_compute; reflexivity)
              ltac:(vm_compute; reflexivity) ltac:(discriminate) ltac:(vm_compute; reflexivity))
    as [st' [H1 [H2 _]]].
  exists st'; split; [exact H1 | exact H2].
Defined.

(** ** leaves_in_check and update_board *)

(** X3: Whenever [update_board(f, t)] succeeds, [leaves_in_check(f, t)], run
    on the same game, returns exactly [is_in_check] of the moved piece's
    owner in the game [update_board] leaves. *)
Theorem leaves_in_check_answer (f t : pos) (s S : state) (i : nat) (chk b : bool) (s' : state)
  (H1 : get_board_m f s = Ret (Some i) s)
  (H2 : update_board f t s = Ret tt S)
  (H3 : is_in_check (owner (piece_of S i)) S = Ret chk S)
  (H4 : leaves_in_check f t s = Ret b s') :
  b = chk.
Proof. exact (leaves_in_check_update f t s S i chk b s' H1 H2 H3 H4). Qed.

Lemma leaves_in_check_answer_witness : false = false.
Proof.
  apply (leaves_in_check_answer (6, 0) (5, 0) new_game
           (final_state (update_board (6, 0) (5, 0) new_game)) 22 false false
           (final_state (leaves_in_check (6, 0) (5, 0) new_game)));
    vm_compute; reflexivity.
Defined.

Lemma set_red_fields (s : state) (l : list nat) :
  board_of (set_red s l) = board_of s /\ pieces (set_red s l) = pieces s /\
  red_pieces (set_red s l) = l /\ blue_pieces (set_red s l) = blue_pieces s.
Proof. repeat split. Qed.

(** ** make_move *)

(** X4: On a well-formed game, [make_move(f, t)] with two notations that
    translate, [f] naming a board cell, never raises and leaves a
    well-formed game, whether it accepts or refuses the move. *)
Theorem make_move_keeps_well_formed (st : state) (m1 m2 : string) (p q : pos)
  (Hw : well_formed st = true) (H1 : to_row_column m1 = inr p) (Hp : on_board p = true)
  (H2 : to_row_column m2 = inr q) :
  exists b st', make_move m1 m2 st = Ret b st' /\ well_formed st' = true.
Proof.
  destruct (make_move_outcome st m1 m2 p q Hw H1 Hp H2) as [b [st' [H [Hw' _]]]].
  exists b, st'; split; assumption.
Qed.

Lemma make_move_keeps_well_formed_witness :
  exists b st', make_move "a7"%string "b7"%string new_game = Ret b st' /\ well_formed st' = true.
Proof.
  apply (make_move_keeps_well_formed new_game "a7"%string "b7"%string (6, 0) (6, 1));
    vm_compute; reflexivity.
Defined.

(** X5: On a well-formed game, when [make_move(f, t)] returns [True] the game
    was unfinished before the call, and the player whose turn it was is not
    in check in the game the call leaves. *)
Theorem make_move_accept_not_in_check (st : state) (m1 m2 : string) (p q : pos) (st' : state)
  (Hw : well_formed st = true) (H1 : to_row_column m1 = inr p) (Hp : on_board p = true)
  (H2 : to_row_column m2 = inr q) (Hm : make_move m1 m2 st = Ret true st') :
  game_state st = UNFINISHED /\ is_in_check (current_turn st) st' = Ret false st'.
Proof.
  destruct (make_move_outcome st m1 m2 p q Hw H1 Hp H2) as [b [st'' [H [_ Hb]]]].
  rewrite Hm in H; injection H as <- <-.
  destruct (Hb eq_refl) as [Hg [Hc _]]; split; assumption.
Qed.

Lemma make_move_accept_not_in_check_witness :
  game_state new_game = UNFINISHED /\
  is_in_check Blue (final_state (make_move "a7"%string "b7"%string new_game)) =
    Ret false (final_state (make_move "a7"%string "b7"%string new_game)).
Proof.
  apply (make_move_accept_not_in_check new_game "a7"%string "b7"%string (6, 0) (6, 1)
           (final_state (make_move "a7"%string "b7"%string new_game)));
    vm_compute; reflexivity.
Defined.

(** X6: On a well-formed game, when [make_move(f, t)] returns [True] either
    [f] and [t] are the same notation and the call only passed the turn, or
    the piece [i] of the player to move that stood on [f] now stands on [t],
    [f] is empty, and either the game is still unfinished and the turn went
    to the other player, or the mover has won and the turn did not change. *)
Theorem make_move_accept_effect (st : state) (m1 m2 : string) (p q : pos) (st' : state)
  (Hw : well_formed st = true) (H1 : to_row_column m1 = inr p) (Hp : on_board p = true)
  (H2 : to_row_column m2 = inr q) (Hm : make_move m1 m2 st = Ret true st') :
  (m1 = m2 /\ st' = pass_turn st) \/
  (exists i, cell (board_of st) p = Some i /\ owner (piece_of st i) = current_turn st /\
     board_of st' = put_cell (put_cell (board_of st) p None) q (Some i) /\
     ((game_state st' = UNFINISHED /\ current_turn st' = other (current_turn st)) \/
      (game_state st' = won_by (current_turn st) /\ current_turn st' = current_turn st))).
Proof.
  destruct (make_move_outcome st m1 m2 p q Hw H1 Hp H2) as [b [st'' [H [_ Hb]]]].
  rewrite Hm in H; injection H as <- <-.
  destruct (Hb eq_refl) as [_ [_ He]]; exact He.
Qed.

Lemma make_move_accept_effect_witness :
  let st' := final_state (make_move "a7"%string "b7"%string new_game) in
  ("a7"%string = "b7"%string /\ st' = pass_turn new_game) \/
  (exists i, cell (board_of new_game) (6, 0) = Some i /\
     owner (piece_of new_game i) = current_turn new_game /\
     board_of st' = put_cell (put_cell (board_of new_game) (6, 0) None) (6, 1) (Some i) /\
     ((game_state st' = UNFINISHED /\ current_turn st' = other (current_turn new_game)) \/
      (game_state st' = won_by (current_turn new_game) /\
       current_turn st' = current_turn new_game)))%string.
Proof.
  apply (make_move_accept_effect new_game "a7"%string "b7"%string (6, 0) (6, 1)
           (final_state (make_move "a7"%string "b7"%string new_game)));
    vm_compute; reflexivity.
Defined.

(** ** main: a sequence of moves *)

(** X7: Playing any sequence of moves from a well-formed game, every origin
    notation of which names a board cell when it translates, leaves a
    well-formed game: an invalid or refused move changes nothing and an
    accepted one keeps the invariants. *)
Theorem play_keeps_well_formed (ms : list (string * string)) (st : state)
  (Hw : well_formed st = true)
  (Hms : Forall (fun m => origin_on_board (fst m) = true) ms) :
  well_formed (final_state (play ms st)) = true.
Proof. exact (play_well_formed_gen ms st Hw Hms). Qed.

Lemma play_keeps_well_formed_witness :
  well_formed (final_state (play main_moves_before_pass new_game)) = true.
Proof.
  apply play_keeps_well_formed; [vm_compute; reflexivity|].
  apply Forall_forall; intros m Hm.
  assert (H : forallb (fun m => origin_on_board (fst m)) main_moves_before_pass = true)
    by (vm_compute; reflexivity).
  rewrite forallb_forall in H; exact (H m Hm).
Defined.

(** ** is_in_check *)

(** X8: On a well-formed game, the answer of [is_in_check] (or the error it
    raises) does not depend on the order of the two collections
    [red_pieces] and [blue_pieces]. *)
Theorem is_in_check_order_independent (st st' : state) (c : color)
  (Hw : well_formed st = true) (Hb : board_of st' = board_of st)
  (Hp : pieces st' = pieces st)
  (Hr : Permutation (red_pieces st') (red_pieces st))
  (Hbl : Permutation (blue_pieces st') (blue_pieces st)) :
  run_value (is_in_check c st') = run_value (is_in_check c st).
Proof.
  unfold is_in_check; rewrite (is_in_check_r_perm st st' c Hw Hb Hp Hr Hbl).
  destruct (is_in_check_r st c); reflexivity.
Qed.

Lemma is_in_check_order_independent_witness :
  run_value (is_in_check Red (set_red new_game (rev (red_pieces new_game)))) =
  run_value (is_in_check Red new_game).
Proof.
  destruct (set_red_fields new_game (rev (red_pieces new_game))) as [E1 [E2 [E3 E4]]].
  apply (is_in_check_order_independent new_game (set_red new_game (rev (red_pieces new_game))) Red).
  - vm_compute; reflexivity.
  - exact E1.
  - exact E2.
  - rewrite E3; apply Permutation_sym, Permutation_rev.
  - rewrite E4; apply Permutation_refl.
Defined.

(** ** get_legal_moves *)

(** X9: A piece's legal moves depend on the opposition list only through
    membership: two lists with the same members give the same moves, for
    every class of piece. *)
Theorem get_legal_moves_membership_only (opp opp' : list pos) (pcs : list piece) (b : board)
  (c : cls) (L : pos) (Hopp : forall x, pos_in x opp = pos_in x opp') :
  get_legal_moves pcs b opp c L = get_legal_moves pcs b opp' c L.
Proof. exact (get_legal_moves_ext opp opp' Hopp pcs b c L). Qed.

Lemma get_legal_moves_membership_only_witness :
  get_legal_moves (pieces new_game) (board_of new_game) [(1, 1)] Cannon (7, 1) =
  get_legal_moves (pieces new_game) (board_of new_game) [(1, 1); (1, 1)] Cannon (7, 1).
Proof.
  apply get_legal_moves_membership_only.
  intros x; unfold pos_in; cbn [existsb]; rewrite orb_false_r; destruct (pos_eqb x (1, 1)); reflexivity.
Defined.

(** ** is_check_mate *)

(** X10: On a well-formed game, [is_check_mate] never raises and, whatever it
    answers, leaves the game as it found it, up to the order of the two
    collections. *)
Theorem is_check_mate_keeps_state (player : color) (st : state)
  (Hw : well_formed st = true) :
  exists b st', is_check_mate player st = Ret b st' /\ same_up_to_order st st'.
Proof. exact (is_check_mate_restores player st Hw). Qed.

Lemma is_check_mate_keeps_state_witness :
  exists b st', is_check_mate Red new_game = Ret b st' /\ same_up_to_order new_game st'.
Proof. apply is_check_mate_keeps_state; vm_compute; reflexivity. Defined.

(** ** print_board *)

(** X11: On a board of 10 rows of 9 cells, [print_board] never raises and
    prints the column header, ten lines, one per row, and an empty line;
    the header and each row line are 138 characters long. *)
Theorem print_board_format (st : state) (Hs : board_shape (board_of st) = true) :
  exists ls, print_board st = (print_top :: ls ++ [EmptyString], None) /\
    List.length ls = 10%nat /\
    Forall (fun l => String.length l = 138%nat) (print_top :: ls).
Proof.
  destruct (print_rows_ok st (seq 0 10) Hs) as [ls [E [L F]]].
  { apply Forall_forall; intros r Hr; apply in_seq in Hr; lia. }
  exists ls; unfold print_board; rewrite E; split; [reflexivity|].
  split; [rewrite L; reflexivity | constructor; [vm_compute; reflexivity | exact F]].
Qed.

Lemma print_board_format_witness :
  exists ls, print_board new_game = (print_top :: ls ++ [EmptyString], None) /\
    List.length ls = 10%nat /\
    Forall (fun l => String.length l = 138%nat) (print_top :: ls).
Proof. apply print_board_format; vm_compute; reflexivity. Defined.

(** X12: The label of each board cell in the printout (column letter, then row
    number) is a notation that [make_move] translates back to that cell. *)
Theorem cell_label_translates (p : pos) (Hp : on_board p = true) :
  to_row_column (cell_label p) = inr p.
Proof. exact (cell_label_round_trip p Hp). Qed.

Lemma cell_label_translates_witness : to_row_column (cell_label (9, 8)) = inr (9, 8).
Proof. apply cell_label_translates; vm_compute; reflexivity. Defined.

(** ** Move shapes of get_legal_moves *)

(** X13: Every legal move of a blue General or Guard at [L] stays inside the
    blue fortress, which [L] is in too: it is one orthogonal step, or one
    diagonal step taken from one of the fortress's diagonal points, onto a
    cell that is empty or holds an opposing piece. *)
Theorem blue_palace_moves_shape (pcs : list piece) (b : board) (opp : list pos) (c : cls)
  (L d : pos) (Hc : c = BlueGeneral \/ c = BlueGuard)
  (Hd : In d (get_legal_moves pcs b opp c L)) :
  in_blue_fortress L = true /\ in_blue_fortress d = true /\
  exists dr dc, d = (fst L + dr, snd L + dc) /\
    (orth dr dc \/ (diag dr dc /\ pos_in L blue_diag_points = true)) /\
    free_or_opposing b opp d.
Proof. destruct Hc as [->| ->]; exact (palace_shape b opp _ _ L d Hd). Qed.

Lemma blue_palace_moves_shape_witness :
  in_blue_fortress (8, 4) = true /\ in_blue_fortress (7, 4) = true /\
  exists dr dc, (7, 4) = (fst (8, 4) + dr, snd (8, 4) + dc) /\
    (orth dr dc \/ (diag dr dc /\ pos_in (8, 4) blue_diag_points = true)) /\
    free_or_opposing (board_of new_game) (get_opposition_positions new_game Blue) (7, 4).
Proof.
  apply (blue_palace_moves_shape (pieces new_game) (board_of new_game)
           (get_opposition_positions new_game Blue) BlueGeneral (8, 4) (7, 4)).
  - left; reflexivity.
  - apply pos_in_spec; vm_compute; reflexivity.
Defined.

(** X14: Every legal move of a red General or Guard at [L] stays inside the
    red fortress, which [L] is in too: it is one orthogonal step, or one
    diagonal step taken from one of the fortress's diagonal points, onto a
    cell that is empty or holds an opposing piece. *)
Theorem red_palace_moves_shape (pcs : list piece) (b : board) (opp : list pos) (c : cls)
  (L d : pos) (Hc : c = RedGeneral \/ c = RedGuard)
  (Hd : In d (get_legal_moves pcs b opp c L)) :
  in_red_fortress L = true /\ in_red_fortress d = true /\
  exists dr dc, d = (fst L + dr, snd L + dc) /\
    (orth dr dc \/ (diag dr dc /\ pos_in L red_diag_points = true)) /\
    free_or_opposing b opp d.
Proof. destruct Hc as [->| ->]; exact (palace_shape b opp _ _ L d Hd). Qed.

Lemma red_palace_moves_shape_witness :
  in_red_fortress (1, 4) = true /\ in_red_fortress (0, 4) = true /\
  exists dr dc, (0, 4) = (fst (1, 4) + dr, snd (1, 4) + dc) /\
    (orth dr dc \/ (diag dr dc /\ pos_in (1, 4) red_diag_points = true)) /\
    free_or_opposing (board_of new_game) (get_opposition_positions new_game Red) (0, 4).
Proof.
  apply (red_palace_moves_shape (pieces new_game) (board_of new_game)
           (get_opposition_positions new_game Red) RedGeneral (1, 4) (0, 4)).
  - left; reflexivity.
  - apply pos_in_spec; vm_compute; reflexivity.
Defined.

(** X15: Every legal move of a Horse at [L] is one orthogonal step [(a, c)] to an
    empty cell followed by one diagonal step [(x, y)] away from [L] in the
    same direction, and ends on a board cell that is empty or holds an
    opposing piece. *)
Theorem horse_moves_shape (pcs : list piece) (b : board) (opp : list pos) (L d : pos)
  (Hd : In d (get_legal_moves pcs b opp Horse L)) :
  on_board d = true /\
  exists a c x y, orth a c /\ diag x y /\ a * x + c * y = 1 /\
    d = (fst L + a + x, snd L + c + y) /\
    occupied b (fst L + a, snd L + c) = false /\ free_or_opposing b opp d.
Proof. exact (horse_shape b opp L d Hd). Qed.

Lemma horse_moves_shape_witness :
  on_board (7, 3) = true /\
  exists a c x y, orth a c /\ diag x y /\ a * x + c * y = 1 /\
    (7, 3) = (fst (9, 2) + a + x, snd (9, 2) + c + y) /\
    occupied (board_of new_game) (fst (9, 2) + a, snd (9, 2) + c) = false /\
    free_or_opposing (board_of new_game) (get_opposition_positions new_game Blue) (7, 3).
Proof.
  apply (horse_moves_shape (pieces new_game) (board_of new_game)
           (get_opposition_positions new_game Blue) (9, 2) (7, 3)).
  apply pos_in_spec; vm_compute; reflexivity.
Defined.

(** X16: Every legal move of an Elephant at [L] is one orthogonal step [(a, c)]
    followed by two diagonal steps [(x, y)] away from [L] in the same
    direction, over two empty cells, and ends on a board cell that is empty
    or holds an opposing piece. *)
Theorem elephant_moves_shape (pcs : list piece) (b : board) (opp : list pos) (L d : pos)
  (Hd : In d (get_legal_moves pcs b opp Elephant L)) :
  on_board d = true /\
  exists a c x y, orth a c /\ diag x y /\ a * x + c * y = 1 /\
    d = (fst L + a + 2 * x, snd L + c + 2 * y) /\
    occupied b (fst L + a, snd L + c) = false /\
    occupied b (fst L + a + x, snd L + c + y) = false /\ free_or_opposing b opp d.
Proof. exact (elephant_shape b opp L d Hd). Qed.

Lemma elephant_moves_shape_witness :
  on_board (6, 3) = true /\
  exists a c x y, orth a c /\ diag x y /\ a * x + c * y = 1 /\
    (6, 3) = (fst (9, 1) + a + 2 * x, snd (9, 1) + c + 2 * y) /\
    occupied (board_of new_game) (fst (9, 1) + a, snd (9, 1) + c) = false /\
    occupied (board_of new_game) (fst (9, 1) + a + x, snd (9, 1) + c + y) = false /\
    free_or_opposing (board_of new_game) (get_opposition_positions new_game Blue) (6, 3).
Proof.
  apply (elephant_moves_shape (pieces new_game) (board_of new_game)
           (get_opposition_positions new_game Blue) (9, 1) (6, 3)).
  apply pos_in_spec; vm_compute; reflexivity.
Defined.

(** X17: Every legal move of a Chariot at [L] goes [j >= 1] steps along one
    direction [(dr, dc)], over empty cells only, to a board cell that is
    empty or holds an opposing piece; the direction is orthogonal, or
    diagonal from one of the fortress diagonal points with every cell of
    the path inside a fortress. *)
Theorem chariot_moves_shape (pcs : list piece) (b : board) (opp : list pos) (L d : pos)
  (Hd : In d (get_legal_moves pcs b opp Chariot L)) :
  on_board d = true /\
  exists dr dc j, (orth dr dc \/ (diag dr dc /\ pos_in L chariot_diag_points = true /\
                     forall m, 1 <= m <= j ->
                       in_fortress (fst L + m * dr, snd L + m * dc) = true)) /\
    1 <= j /\ d = (fst L + j * dr, snd L + j * dc) /\
    (forall m, 1 <= m < j -> occupied b (fst L + m * dr, snd L + m * dc) = false) /\
    free_or_opposing b opp d.
Proof. revert Hd; simpl get_legal_moves; intros Hd; exact (chariot_shape b opp L d Hd). Qed.

Lemma chariot_moves_shape_witness :
  on_board (7, 0) = true /\
  exists dr dc j, (orth dr dc \/ (diag dr dc /\ pos_in (9, 0) chariot_diag_points = true /\
                     forall m, 1 <= m <= j ->
                       in_fortress (fst (9, 0) + m * dr, snd (9, 0) + m * dc) = true)) /\
    1 <= j /\ (7, 0) = (fst (9, 0) + j * dr, snd (9, 0) + j * dc) /\
    (forall m, 1 <= m < j ->
       occupied (board_of new_game) (fst (9, 0) + m * dr, snd (9, 0) + m * dc) = false) /\
    free_or_opposing (board_of new_game) (get_opposition_positions new_game Blue) (7, 0).
Proof.
  apply (chariot_moves_shape (pieces new_game) (board_of new_game)
           (get_opposition_positions new_game Blue) (9, 0) (7, 0)).
  apply pos_in_spec; vm_compute; reflexivity.
Defined.
